(** * Buffet Race: the foraging simulation of [RaceSimulation.tsx]

    A shallow embedding of the [Simulation] component (world construction in
    its [useEffect], the per-frame game loop in its [useFrame]) and of the
    [RaceSimulation] shell that owns it (parameter inputs, start / play-again
    handlers, countdown timer).

    Numbers.  A JavaScript [number] that holds a coordinate, an angle or a
    time increment is modelled as a real [R]: finite doubles read as the reals
    they denote, rounding ignored, [NaN] and the infinities left out.  Counts,
    identifiers and scores are integers in the source and are [Z] or [nat]
    here.  [Math.max], [Math.min], [Math.cos], [Math.sin], [Math.PI] and
    [Math.floor] are [Rmax], [Rmin], [cos], [sin], [PI] and [Int_part].
    [Math.random] is a stream of reals handed to the construction.

    React.  A [useState] cell is a record field and a setter replaces it at
    once; the setters of one handler act as one update.  The rendered
    [Simulation] element keeps its state for as long as the JSX condition
    around the canvas holds.  Its effect is an event of its own, so frames
    may run between the first render and the effect.

    The update step.  [updateBuffetPlayers] comes from [./buffetplayers],
    which is not among the sources.  The game loop takes it as a parameter;
    where a property depends on what it does, it is the update step of
    section 4.2 of the spec, with the degenerate tick of section 7. *)

From Stdlib Require Import Reals Lra Lia ZArith String Bool Arith List.
From Stdlib Require Import Ascii DecimalString.
Import ListNotations.
Open Scope R_scope.

(** ** three.js values *)

Module Vector3.
Record t : Type := mk { x : R; y : R; z : R }.

(** [v.x = nx] on a vector: the other coordinates stay. *)
Definition set_x (v : t) (nx : R) : t := mk nx (y v) (z v).
Definition set_z (v : t) (nz : R) : t := mk (x v) (y v) nz.
End Vector3.

Module Quaternion.
Record t : Type := mk { x : R; y : R; z : R; w : R }.

(** [new THREE.Quaternion().setFromAxisAngle(axis, angle)]. *)
Definition setFromAxisAngle (axis : Vector3.t) (angle : R) : t :=
  let halfAngle := angle / 2 in
  let s := sin halfAngle in
  mk (Vector3.x axis * s) (Vector3.y axis * s) (Vector3.z axis * s)
     (cos halfAngle).

(** [v.applyQuaternion(q)]: the vector [v] turned by the rotation [q]. *)
Definition apply (q : t) (v : Vector3.t) : Vector3.t :=
  let vx := Vector3.x v in
  let vy := Vector3.y v in
  let vz := Vector3.z v in
  let tx := 2 * (y q * vz - z q * vy) in
  let ty := 2 * (z q * vx - x q * vz) in
  let tz := 2 * (x q * vy - y q * vx) in
  Vector3.mk (vx + w q * tx + y q * tz - z q * ty)
             (vy + w q * ty + z q * tx - x q * tz)
             (vz + w q * tz + x q * ty - y q * tx).
End Quaternion.

(** ** The simulation's entities (the two interfaces of the source) *)

Module Player.
(** [isJumping?] and [verticalVelocity?] are optional fields: [None] is an
    absent field. *)
Record t : Type := mk {
  id : nat;
  position : Vector3.t;
  quaternion : Quaternion.t;
  velocity : Vector3.t;
  score : nat;
  color : string;
  isJumping : option bool;
  verticalVelocity : option R
}.

(** Assignment to [p.position], as the boundary clamp does in place. *)
Definition set_position (p : t) (pos : Vector3.t) : t :=
  mk (id p) pos (quaternion p) (velocity p) (score p) (color p)
     (isJumping p) (verticalVelocity p).
End Player.

Inductive FoodType : Type := cube | sphere | triangle.

Module FoodItem.
(** [type] and [color] are read out of an array at a computed index, so
    they are [None] where JavaScript would yield [undefined]. *)
Record t : Type := mk {
  id : nat;
  position : Vector3.t;
  type : option FoodType;
  consumed : bool;
  color : option string
}.

Definition set_consumed (f : t) (b : bool) : t :=
  mk (id f) (position f) (type f) b (color f).
End FoodItem.

(** ** Constants of the source *)

Definition MAP_SIZE : R := 8.
Definition gameDuration : Z := 60.

Definition playerColors : list string :=
  ["#FF5733"; "#33FF57"; "#3357FF"; "#F3FF33";
   "#FF33F3"; "#33FFF3"; "#F333FF"; "#FFA533"]%string.

Definition foodTypes : list FoodType := [cube; sphere; triangle].

Definition foodColors : list string :=
  ["#FF9999"; "#99FF99"; "#9999FF"; "#FFFF99"; "#FF99FF"; "#99FFFF"]%string.

(** [arr[i]] for an integer-valued number [i]: [undefined] out of range. *)
Definition js_index {A : Type} (arr : list A) (i : Z) : option A :=
  if (i <? 0)%Z then None else nth_error arr (Z.to_nat i).

(** [Math.floor(r * arr.length)] as an index into [arr]. *)
Definition pick {A : Type} (arr : list A) (r : R) : option A :=
  js_index arr (Int_part (r * INR (length arr))).

(** ** World construction: the body of the component's [useEffect] *)

(** One iteration of the player loop. *)
Definition spawnPlayer (playerCount : Z) (mapSize : R) (i : nat) : Player.t :=
  let angle := INR i / IZR playerCount * PI * 2 in
  let radius := mapSize * 0.75 in
  Player.mk i
    (Vector3.mk (cos angle * radius) 0.5 (sin angle * radius))
    (Quaternion.setFromAxisAngle (Vector3.mk 0 1 0) (- angle))
    (Vector3.mk 0 0 0)
    0%nat
    (nth (i mod length playerColors) playerColors EmptyString)
    (Some false)
    (Some 0).

Definition newPlayers (playerCount : Z) (mapSize : R) : list Player.t :=
  map (spawnPlayer playerCount mapSize) (seq 0 (Z.to_nat playerCount)).

(** One iteration of the food loop.  [rnd] is the stream of values that
    [Math.random()] returns during this construction; item [i] draws four of
    them, in the order the object literal evaluates its fields. *)
Definition spawnFood (mapSize : R) (rnd : nat -> R) (i : nat) : FoodItem.t :=
  let min := - mapSize + 0.5 in
  let max := mapSize - 0.5 in
  FoodItem.mk i
    (Vector3.mk (rnd (4 * i)%nat * (max - min) + min)
                0.5
                (rnd (4 * i + 1)%nat * (max - min) + min))
    (pick foodTypes (rnd (4 * i + 2)%nat))
    false
    (pick foodColors (rnd (4 * i + 3)%nat)).

Definition newFoodItems (foodAmount : Z) (mapSize : R) (rnd : nat -> R)
  : list FoodItem.t :=
  map (spawnFood mapSize rnd) (seq 0 (Z.to_nat foodAmount)).

(** ** The [Simulation] component *)

(** The component's two [useState] cells, and the dependency array its
    effect last ran with ([None] between mounting and the first effect). *)
Record Simulation : Type := mkSimulation {
  players : list Player.t;
  foodItems : list FoodItem.t;
  deps : option (Z * Z * R)
}.

Definition mounted : Simulation := mkSimulation [] [] None.

(** The effect: both collections are rebuilt from scratch. *)
Definition useEffect (playerCount foodAmount : Z) (mapSize : R)
  (rnd : nat -> R) (s : Simulation) : Simulation :=
  mkSimulation (newPlayers playerCount mapSize)
               (newFoodItems foodAmount mapSize rnd)
               (Some (playerCount, foodAmount, mapSize)).

(** What [updateBuffetPlayers] hands back. *)
Record UpdateResult : Type := mkUpdateResult {
  result_players : list Player.t;
  result_foodItems : list FoodItem.t
}.

Definition Update : Type :=
  list Player.t -> list FoodItem.t -> R -> UpdateResult.

(** The boundary clamp applied to one player. *)
Definition clampPlayer (mapSize : R) (p : Player.t) : Player.t :=
  let p1 :=
    Player.set_position p
      (Vector3.set_x (Player.position p)
         (Rmax (- mapSize) (Rmin mapSize (Vector3.x (Player.position p))))) in
  Player.set_position p1
    (Vector3.set_z (Player.position p1)
       (Rmax (- mapSize) (Rmin mapSize (Vector3.z (Player.position p1))))).

(** What one run of the frame callback does: the component's next state,
    the argument of [setScores] when it is called, and whether
    [onFoodDepleted] is called. *)
Record Frame : Type := mkFrame {
  next : Simulation;
  published : option (list nat);
  foodDepleted : bool
}.

Section GameLoop.
(** [updateBuffetPlayers] is imported from [./buffetplayers]. *)
Variable updateBuffetPlayers : Update.

Definition useFrame (isSimulationRunning isGameOver : bool) (mapSize : R)
  (s : Simulation) (delta : R) : Frame :=
  if (length (players s) =? 0)%nat || (length (foodItems s) =? 0)%nat then
    mkFrame s None false
  else if isSimulationRunning && negb isGameOver then
    let result := updateBuffetPlayers (players s) (foodItems s) delta in
    let updatedPlayers := map (clampPlayer mapSize) (result_players result) in
    let updatedFoodItems := result_foodItems result in
    mkFrame (mkSimulation updatedPlayers updatedFoodItems (deps s))
            (Some (map Player.score updatedPlayers))
            (forallb FoodItem.consumed updatedFoodItems)
  else
    mkFrame s (Some (map Player.score (players s))) false.
End GameLoop.

(** ** The [RaceSimulation] shell *)

(** What [parseInt] returns on the text of a number input: [NaN] or an
    integer. *)
Inductive Parsed : Type := NaN | Int (n : Z).

(** [v || d] on such a number: [NaN] and [0] are falsy. *)
Definition or_else (v : Parsed) (d : Z) : Z :=
  match v with
  | NaN => d
  | Int n => if (n =? 0)%Z then d else n
  end.

(** The two [onChange] handlers of the parameters bar. *)
Definition onChange_playerCount (v : Parsed) : Z :=
  Z.max 1 (Z.min 8 (or_else v 1)).

Definition onChange_foodAmount (v : Parsed) : Z :=
  Z.max 1 (Z.min 500 (or_else v 1)).

(** The shell's [useState] cells that bear on the simulation, and the
    [Simulation] element it renders ([None] while it is not rendered). *)
Record RaceSimulation : Type := mkRaceSimulation {
  playerCount : Z;
  foodAmount : Z;
  scores : list nat;
  isSimulationRunning : bool;
  isGameOver : bool;
  timeLeft : Z;
  simulation : option Simulation
}.

Definition initial : RaceSimulation :=
  mkRaceSimulation 4 100 [] false false 60 None.

Definition setPlayerCount (n : Z) (a : RaceSimulation) : RaceSimulation :=
  mkRaceSimulation n (foodAmount a) (scores a) (isSimulationRunning a)
    (isGameOver a) (timeLeft a) (simulation a).

Definition setFoodAmount (n : Z) (a : RaceSimulation) : RaceSimulation :=
  mkRaceSimulation (playerCount a) n (scores a) (isSimulationRunning a)
    (isGameOver a) (timeLeft a) (simulation a).

Definition setScores (l : list nat) (a : RaceSimulation) : RaceSimulation :=
  mkRaceSimulation (playerCount a) (foodAmount a) l (isSimulationRunning a)
    (isGameOver a) (timeLeft a) (simulation a).

Definition setIsSimulationRunning (b : bool) (a : RaceSimulation)
  : RaceSimulation :=
  mkRaceSimulation (playerCount a) (foodAmount a) (scores a) b
    (isGameOver a) (timeLeft a) (simulation a).

Definition setIsGameOver (b : bool) (a : RaceSimulation) : RaceSimulation :=
  mkRaceSimulation (playerCount a) (foodAmount a) (scores a)
    (isSimulationRunning a) b (timeLeft a) (simulation a).

Definition setTimeLeft (t : Z) (a : RaceSimulation) : RaceSimulation :=
  mkRaceSimulation (playerCount a) (foodAmount a) (scores a)
    (isSimulationRunning a) (isGameOver a) t (simulation a).

Definition setSimulation (s : option Simulation) (a : RaceSimulation)
  : RaceSimulation :=
  mkRaceSimulation (playerCount a) (foodAmount a) (scores a)
    (isSimulationRunning a) (isGameOver a) (timeLeft a) s.

(** The JSX conditions: the parameters bar shows before a race only, the
    canvas with its [Simulation] element while a race runs or is over. *)
Definition barVisible (a : RaceSimulation) : bool :=
  negb (isSimulationRunning a) && negb (isGameOver a).

Definition canvasVisible (a : RaceSimulation) : bool :=
  isSimulationRunning a || isGameOver a.

(** Rendering keeps a [Simulation] element that is already there (with its
    state), creates one with empty collections when the canvas appears, and
    drops it when the canvas goes. *)
Definition render (a : RaceSimulation) : RaceSimulation :=
  if canvasVisible a then
    match simulation a with
    | Some _ => a
    | None => setSimulation (Some mounted) a
    end
  else setSimulation None a.

Definition startSimulation (a : RaceSimulation) : RaceSimulation :=
  setIsSimulationRunning true
    (setIsGameOver false
       (setTimeLeft gameDuration
          (setScores (repeat 0%nat (Z.to_nat (playerCount a))) a))).

Definition handlePlayAgain (a : RaceSimulation) : RaceSimulation :=
  startSimulation a.

Definition handleFoodDepleted (a : RaceSimulation) : RaceSimulation :=
  setIsSimulationRunning false (setIsGameOver true a).

(** One firing of the one-second interval. *)
Definition timerTick (a : RaceSimulation) : RaceSimulation :=
  if (timeLeft a <=? 1)%Z then
    setTimeLeft 0 (setIsSimulationRunning false (setIsGameOver true a))
  else setTimeLeft (timeLeft a - 1) a.

(** Has the dependency array [playerCount, foodAmount, mapSize] changed
    since the effect last ran? *)
Definition depsChanged (old : option (Z * Z * R)) (pc fa : Z) (ms : R)
  : bool :=
  match old with
  | None => true
  | Some (pc0, fa0, ms0) =>
      negb ((pc0 =? pc)%Z && (fa0 =? fa)%Z
            && if Req_dec_T ms0 ms then true else false)
  end.

(** The effect of the rendered [Simulation] element: it runs after the
    first render and after a render that changed a dependency. *)
Definition runEffect (rnd : nat -> R) (a : RaceSimulation) : RaceSimulation :=
  match simulation a with
  | Some s =>
      if depsChanged (deps s) (playerCount a) (foodAmount a) MAP_SIZE then
        setSimulation
          (Some (useEffect (playerCount a) (foodAmount a) MAP_SIZE rnd s)) a
      else a
  | None => a
  end.

(** What can happen to the page. *)
Inductive Event : Type :=
| ChangePlayerCount (v : Parsed)
| ChangeFoodAmount (v : Parsed)
| ClickStart
| ClickPlayAgain
| TimerTick
| RunEffect (rnd : nat -> R)
| AnimationFrame (delta : R).

Section Shell.
Variable updateBuffetPlayers : Update.

(** One animation frame of the rendered [Simulation] element. *)
Definition animationFrame (delta : R) (a : RaceSimulation) : RaceSimulation :=
  match simulation a with
  | Some s =>
      let f := useFrame updateBuffetPlayers (isSimulationRunning a)
                 (isGameOver a) MAP_SIZE s delta in
      let a1 := setSimulation (Some (next f)) a in
      let a2 := if foodDepleted f then handleFoodDepleted a1 else a1 in
      match published f with
      | Some l => setScores l a2
      | None => a2
      end
  | None => a
  end.

(** An event that its control does not offer (a hidden button, a stopped
    timer) leaves the page as it is. *)
Definition dispatch (a : RaceSimulation) (e : Event) : RaceSimulation :=
  match e with
  | ChangePlayerCount v =>
      if barVisible a then render (setPlayerCount (onChange_playerCount v) a)
      else a
  | ChangeFoodAmount v =>
      if barVisible a then render (setFoodAmount (onChange_foodAmount v) a)
      else a
  | ClickStart => if barVisible a then render (startSimulation a) else a
  | ClickPlayAgain => if isGameOver a then render (handlePlayAgain a) else a
  | TimerTick =>
      if isSimulationRunning a && negb (isGameOver a)
      then render (timerTick a) else a
  | RunEffect rnd => runEffect rnd a
  | AnimationFrame delta => render (animationFrame delta a)
  end.

Definition run (a : RaceSimulation) (es : list Event) : RaceSimulation :=
  fold_left dispatch es a.
End Shell.

(** ** The update step of [./buffetplayers]

    The module [./buffetplayers] is not among the sources.  What follows is
    its update step as the spec describes it: a tick with [delta] zero or
    negative changes nothing (section 7); any other tick does targeting,
    movement, jump arc and consumption, player by player (section 4.2). *)

(** The ground-contact height (the height players and food spawn at) and the
    downward acceleration the component declares. *)
Definition groundHeight : R := 0.5.
Definition gravity : R := -18.

(** Modelled from the spec: the distance of targeting and pickup in the
    absent [./buffetplayers], Euclidean in the horizontal plane, height
    ignored. *)
Definition distance (a b : Vector3.t) : R :=
  sqrt ((Vector3.x b - Vector3.x a) * (Vector3.x b - Vector3.x a)
        + (Vector3.z b - Vector3.z a) * (Vector3.z b - Vector3.z a)).

(** Modelled from the spec: the order of targeting in the absent
    [./buffetplayers].  [f] is a better target than [g] for a player at [p]
    when it is strictly nearer, or as near with the lower id. *)
Definition closer (p : Vector3.t) (f g : FoodItem.t) : bool :=
  if Rlt_dec (distance p (FoodItem.position f)) (distance p (FoodItem.position g))
  then true
  else if Rlt_dec (distance p (FoodItem.position g))
                  (distance p (FoodItem.position f))
  then false
  else (FoodItem.id f <=? FoodItem.id g)%nat.

(** Modelled from the spec: targeting in the absent [./buffetplayers], the
    nearest food item not yet consumed, if any. *)
Fixpoint target (p : Vector3.t) (fs : list FoodItem.t) : option FoodItem.t :=
  match fs with
  | [] => None
  | f :: rest =>
      match target p rest with
      | None => if FoodItem.consumed f then None else Some f
      | Some g =>
          if FoodItem.consumed f then Some g
          else if closer p f g then Some f else Some g
      end
  end.

(** Modelled from the spec: the test of the absent [./buffetplayers] that a
    food item is claimed by at most one player.  Is the item with id [i]
    still there to be claimed? *)
Definition unclaimed (fs : list FoodItem.t) (i : nat) : bool :=
  match find (fun g => (FoodItem.id g =? i)%nat) fs with
  | Some g => negb (FoodItem.consumed g)
  | None => false
  end.

(** Modelled from the spec: consumption in the absent [./buffetplayers],
    the item with id [i] marked consumed. *)
Definition claim (fs : list FoodItem.t) (i : nat) : list FoodItem.t :=
  map (fun g => if (FoodItem.id g =? i)%nat
                then FoodItem.set_consumed g true else g) fs.

(** Modelled from the spec: scoring in the absent [./buffetplayers], the
    score incremented by 1. *)
Definition addScore (p : Player.t) : Player.t :=
  Player.mk (Player.id p) (Player.position p) (Player.quaternion p)
    (Player.velocity p) (S (Player.score p)) (Player.color p)
    (Player.isJumping p) (Player.verticalVelocity p).

(** Modelled from the spec: the jump arc of the absent [./buffetplayers].
    While a player is in a jump its height follows its vertical velocity and
    the velocity follows gravity (one explicit step per tick); at ground
    height the jump state is cleared. *)
Definition jumpArc (p : Player.t) (delta : R) : Player.t :=
  match Player.isJumping p with
  | Some true =>
      let v := match Player.verticalVelocity p with Some v => v | None => 0 end in
      let pos := Player.position p in
      let h := Vector3.y pos + v * delta in
      if Rle_dec h groundHeight then
        Player.mk (Player.id p)
          (Vector3.mk (Vector3.x pos) groundHeight (Vector3.z pos))
          (Player.quaternion p) (Player.velocity p) (Player.score p)
          (Player.color p) (Some false) (Some 0)
      else
        Player.mk (Player.id p)
          (Vector3.mk (Vector3.x pos) h (Vector3.z pos))
          (Player.quaternion p) (Player.velocity p) (Player.score p)
          (Player.color p) (Some true) (Some (v + gravity * delta))
  | _ => p
  end.

Section BuffetPlayers.
(** The constants the spec leaves open: the speed shared by all players, the
    pickup radius, the heading that faces a horizontal direction, and
    whether a claim is seen by the targeting of later players in the same
    pass or from the next tick on. *)
Variable speed : R.
Variable pickupRadius : R.
Variable facing : R -> R -> Quaternion.t.
Variable sameTickVisible : bool.

(** Modelled from the spec: movement in the absent [./buffetplayers], by
    [speed * delta] along the unit vector toward the target, in the
    horizontal plane; velocity and heading follow the direction.  On the
    target itself both differences are 0, hence so are [dx] and [dz]. *)
Definition moveToward (p : Player.t) (t : FoodItem.t) (delta : R) : Player.t :=
  let pos := Player.position p in
  let d := distance pos (FoodItem.position t) in
  let dx := (Vector3.x (FoodItem.position t) - Vector3.x pos) / d in
  let dz := (Vector3.z (FoodItem.position t) - Vector3.z pos) / d in
  Player.mk (Player.id p)
    (Vector3.mk (Vector3.x pos + dx * (speed * delta))
                (Vector3.y pos)
                (Vector3.z pos + dz * (speed * delta)))
    (facing dx dz)
    (Vector3.mk (dx * speed) 0 (dz * speed))
    (Player.score p) (Player.color p)
    (Player.isJumping p) (Player.verticalVelocity p).

(** Modelled from the spec: one player's turn in a pass of the absent
    [./buffetplayers].  [snapshot] is the food state at tick
    start, [live] the food state with the claims made so far in this pass.
    The player turns out together with the food state after its turn and
    the claim it made, if any, as (player id, food id). *)
Definition updatePlayer (snapshot live : list FoodItem.t) (p : Player.t)
  (delta : R) : Player.t * list FoodItem.t * list (nat * nat) :=
  match target (Player.position p)
          (if sameTickVisible then live else snapshot) with
  | None => (p, live, [])
  | Some t =>
      let p1 := jumpArc (moveToward p t delta) delta in
      if (if Rlt_dec (distance (Player.position p1) (FoodItem.position t))
                     pickupRadius then true else false)
         && unclaimed live (FoodItem.id t)
      then (addScore p1, claim live (FoodItem.id t),
            [(Player.id p, FoodItem.id t)])
      else (p1, live, [])
  end.

(** Modelled from the spec: a pass of the absent [./buffetplayers] over the
    players, in the order of the collection. *)
Fixpoint pass (snapshot live : list FoodItem.t) (ps : list Player.t)
  (delta : R) : list Player.t * list FoodItem.t * list (nat * nat) :=
  match ps with
  | [] => ([], live, [])
  | p :: rest =>
      let '(p', live', c) := updatePlayer snapshot live p delta in
      let '(rest', live'', cs) := pass snapshot live' rest delta in
      (p' :: rest', live'', c ++ cs)
  end.

(** Modelled from the spec: [updateBuffetPlayers] of [./buffetplayers] is
    not among the sources.  A degenerate tick, [delta] zero or negative, is
    a no-op that hands the world back unchanged (section 7 of the spec; a
    tick is strictly positive in section 4.2).  Any other tick follows
    section 4.2: targeting, movement, jump arc and consumption for each
    player in turn (the boundary clamp of step 5 is in [useFrame]). *)
Definition updateBuffetPlayers : Update :=
  fun ps fs delta =>
    if Rle_dec delta 0 then mkUpdateResult ps fs
    else
      let '(ps', fs', _) := pass fs fs ps delta in
      mkUpdateResult ps' fs'.

(** Modelled from the spec: the claims that one update of the absent
    [./buffetplayers] makes, as (player id, food id); none on a degenerate
    tick. *)
Definition claimsOf (ps : list Player.t) (fs : list FoodItem.t) (delta : R)
  : list (nat * nat) :=
  if Rle_dec delta 0 then []
  else let '(_, _, cs) := pass fs fs ps delta in cs.
End BuffetPlayers.

(** ** Runs of the game loop *)

(** The inputs of one frame: the two flags the shell passes down and the
    time increment. *)
Record Tick : Type := mkTick {
  tick_running : bool;
  tick_gameOver : bool;
  tick_delta : R
}.

Section Runs.
Variable update : Update.
Variable mapSize : R.

Definition frameOf (s : Simulation) (t : Tick) : Frame :=
  useFrame update (tick_running t) (tick_gameOver t) mapSize s (tick_delta t).

(** The state after a sequence of frames. *)
Definition frames (s : Simulation) (ts : list Tick) : Simulation :=
  fold_left (fun s t => next (frameOf s t)) ts s.
End Runs.

(** Modelled from the spec: the claims that the absent [./buffetplayers]
    makes during a run of the game loop, frame by frame. *)
Fixpoint claimsOfRun (speed pickupRadius : R) (facing : R -> R -> Quaternion.t)
  (sameTickVisible : bool) (mapSize : R) (s : Simulation) (ts : list Tick)
  : list (nat * nat) :=
  match ts with
  | [] => []
  | t :: rest =>
      let upd := updateBuffetPlayers speed pickupRadius facing sameTickVisible in
      let now :=
        if (length (players s) =? 0)%nat || (length (foodItems s) =? 0)%nat
        then []
        else if tick_running t && negb (tick_gameOver t)
        then claimsOf speed pickupRadius facing sameTickVisible
               (players s) (foodItems s) (tick_delta t)
        else [] in
      now ++ claimsOfRun speed pickupRadius facing sameTickVisible mapSize
               (next (frameOf upd mapSize s t)) rest
  end.

(** ** Sample data for the examples *)

Definition noTurn : Quaternion.t := Quaternion.mk 0 0 0 1.

(** The spec's update step with speed 2, pickup radius 0.5 and claims seen
    by later players of the same pass. *)
Definition sampleUpdate : Update :=
  updateBuffetPlayers 2 0.5 (fun _ _ => noTurn) true.

Definition playerAt (i : nat) (px pz : R) (sc : nat) : Player.t :=
  Player.mk i (Vector3.mk px 0.5 pz) noTurn (Vector3.mk 0 0 0) sc
    "#FF5733"%string (Some false) (Some 0).

Definition foodAt (i : nat) (px pz : R) (eaten : bool) : FoodItem.t :=
  FoodItem.mk i (Vector3.mk px 0.5 pz) (Some cube) eaten
    (Some "#FF9999"%string).

(** A random source that always draws [0]. *)
Definition zeros : nat -> R := fun _ => 0.

(** ** Predicates of the properties *)

(** A player within the arena: both horizontal coordinates in
    [[-mapSize, mapSize]]. *)
Definition inArena (mapSize : R) (p : Player.t) : Prop :=
  - mapSize <= Vector3.x (Player.position p) <= mapSize /\
  - mapSize <= Vector3.z (Player.position p) <= mapSize.

(** The players of the rendered [Simulation] element, none when there is no
    such element. *)
Definition playersOf (a : RaceSimulation) : list Player.t :=
  match simulation a with
  | Some s => players s
  | None => []
  end.

Definition foodItemsOf (a : RaceSimulation) : list FoodItem.t :=
  match simulation a with
  | Some s => foodItems s
  | None => []
  end.


(** A requested count brought into [[lo, hi]]: not a number, zero or less
    give [lo]; more than [hi] gives [hi]. *)
Definition clampCount (lo hi : Z) (v : Parsed) : Z :=
  match v with
  | NaN => lo
  | Int n => if (n <? lo)%Z then lo else if (hi <? n)%Z then hi else n
  end.


(** The counts of the page within the bounds of its two inputs. *)
Definition countsInRange (a : RaceSimulation) : Prop :=
  (1 <= playerCount a <= 8)%Z /\ (1 <= foodAmount a <= 500)%Z.

(** Where the spawn rule puts player [i]: the angle on the circle and the
    radius of the circle. *)
Definition spawnAngle (playerCount : Z) (i : nat) : R :=
  INR i / IZR playerCount * (2 * PI).

Definition spawnRadius (mapSize : R) : R := 0.75 * mapSize.

(** The margin that keeps food off the boundary. *)
Definition margin : R := 0.5.

(** A freshly spawned food item. *)
Definition freshFood (mapSize : R) (f : FoodItem.t) : Prop :=
  - mapSize + margin <= Vector3.x (FoodItem.position f) <= mapSize - margin /\
  - mapSize + margin <= Vector3.z (FoodItem.position f) <= mapSize - margin /\
  Vector3.y (FoodItem.position f) = groundHeight /\
  (exists t, FoodItem.type f = Some t /\ In t foodTypes) /\
  FoodItem.consumed f = false.


(** The rendered [Simulation] element is there exactly while the canvas is,
    and its effect, once run, ran with the counts of the page. *)
Definition elementInvariant (a : RaceSimulation) : Prop :=
  match simulation a with
  | Some s =>
      canvasVisible a = true /\
      (deps s = None \/
       deps s = Some (playerCount a, foodAmount a, MAP_SIZE))
  | None => canvasVisible a = false
  end.

(** A first race that ends at its first frame: one player, one food item,
    and a random source that puts the food item a quarter of a unit from
    where the player spawns. *)
Definition nearTheSpawn : nat -> R :=
  fun n => match n with 0%nat => 11 / 12 | 1%nat => 0.5 | _ => 0 end.

Definition firstRace : list Event :=
  [ChangePlayerCount (Int 1); ChangeFoodAmount (Int 1); ClickStart;
   RunEffect nearTheSpawn; AnimationFrame (1 / 60)].

(** Play Again, then the first frame of the second race. *)
Definition secondRace : list Event :=
  [ClickPlayAgain; RunEffect zeros; AnimationFrame (1 / 60)].

(** The player and the food item of that world, as spawned and as the
    first frame leaves them. *)
Definition loner : Player.t := spawnPlayer 1 MAP_SIZE 0.
Definition morsel : FoodItem.t := spawnFood MAP_SIZE nearTheSpawn 0.

Definition winner : Player.t :=
  clampPlayer MAP_SIZE
    (addScore
       (jumpArc (moveToward 2 (fun _ _ => noTurn) loner morsel (1 / 60))
          (1 / 60))).

Definition firstRaceOver : RaceSimulation :=
  mkRaceSimulation 1 1 [1%nat] false true 60
    (Some (mkSimulation [winner] [FoodItem.set_consumed morsel true]
             (Some (1%Z, 1%Z, MAP_SIZE)))).

(** One food item before and after some frames: the same item, and
    consumed afterwards if it was before. *)
Definition foodLe (f g : FoodItem.t) : Prop :=
  FoodItem.id f = FoodItem.id g /\
  FoodItem.position f = FoodItem.position g /\
  (FoodItem.consumed f = true -> FoodItem.consumed g = true).

(** The horizontal coordinates of a player. *)
Definition horizontal (p : Player.t) : R * R :=
  (Vector3.x (Player.position p), Vector3.z (Player.position p)).

Definition totalScore (ps : list Player.t) : nat :=
  list_sum (map Player.score ps).


(** What is asked of the claims made between two food states: no food id
    is claimed twice, and each claimed id could be claimed before and
    cannot be claimed after. *)
Definition claimsSound (before after : list FoodItem.t)
  (cs : list (nat * nat)) : Prop :=
  NoDup (map snd cs) /\
  Forall (fun i => unclaimed before i = true /\ unclaimed after i = false)
         (map snd cs).


(** A world where the one player is a quarter of a unit from the one food
    item. *)
Definition withinReach : Simulation :=
  mkSimulation [playerAt 0 0 0 0] [foodAt 0 0.25 0 false] None.


(** What targeting is to pick for a player at [p] among [fs]: an item not
    yet consumed, nearest in the horizontal plane, with the lowest id among
    the nearest. *)
Definition nearestUnconsumed (p : Vector3.t) (fs : list FoodItem.t)
  (t : FoodItem.t) : Prop :=
  In t fs /\ FoodItem.consumed t = false /\
  forall g, In g fs -> FoodItem.consumed g = false ->
    distance p (FoodItem.position t) <= distance p (FoodItem.position g) /\
    (distance p (FoodItem.position t) = distance p (FoodItem.position g) ->
     (FoodItem.id t <= FoodItem.id g)%nat).


(** The direction an object faces in three.js ([Object3D.getWorldDirection]):
    its local positive z axis as its orientation turns it.  The source's own
    [moveForward] keys move along the opposite axis, [[0, 0, -1]]. *)
Definition getWorldDirection (q : Quaternion.t) : Vector3.t :=
  Quaternion.apply q (Vector3.mk 0 0 1).

Definition forwardDirection (q : Quaternion.t) : Vector3.t :=
  Quaternion.apply q (Vector3.mk 0 0 (-1)).

(** From [pos], going along [dir] leads to the vertical axis through the
    centre of the arena. *)
Definition towardCentre (pos dir : Vector3.t) : Prop :=
  exists k, 0 < k /\
    Vector3.x pos + k * Vector3.x dir = 0 /\
    Vector3.z pos + k * Vector3.z dir = 0.


(** ** The referee ([RefereeMover]) *)

Module Vector3Ops.
(** [v.length()], [v.multiplyScalar(s)], [v.normalize()] (which divides by
    [length() || 1], as a product with [1 / scalar]) and [v.add(w)]. *)
Definition length (v : Vector3.t) : R :=
  sqrt (Vector3.x v * Vector3.x v + Vector3.y v * Vector3.y v
        + Vector3.z v * Vector3.z v).

Definition multiplyScalar (v : Vector3.t) (s : R) : Vector3.t :=
  Vector3.mk (Vector3.x v * s) (Vector3.y v * s) (Vector3.z v * s).

Definition normalize (v : Vector3.t) : Vector3.t :=
  let l := length v in
  multiplyScalar v (1 / (if Req_dec_T l 0 then 1 else l)).

Definition add (v w : Vector3.t) : Vector3.t :=
  Vector3.mk (Vector3.x v + Vector3.x w) (Vector3.y v + Vector3.y w)
             (Vector3.z v + Vector3.z w).
End Vector3Ops.

Definition moveSpeed : R := 0.5.

(** The key codes that move the referee, in the order of the object
    literal, each with its direction. *)
Definition keyMap : list (string * (Z * Z * Z)) :=
  [("ArrowUp", (0, 0, -1)); ("ArrowDown", (0, 0, 1));
   ("ArrowLeft", (-1, 0, 0)); ("ArrowRight", (1, 0, 0));
   ("KeyW", (0, 0, -1)); ("KeyS", (0, 0, 1));
   ("KeyA", (-1, 0, 0)); ("KeyD", (1, 0, 0))]%string%Z.

(** The object in [keys.current]: a code it has no entry for reads as
    [undefined], which is falsy like [false]. *)
Definition Keys : Type := string -> bool.

Definition noKeys : Keys := fun _ => false.

(** The [keydown] and [keyup] listeners. *)
Definition keydown (code : string) (keys : Keys) : Keys :=
  fun c => if String.eqb c code then true else keys c.

Definition keyup (code : string) (keys : Keys) : Keys :=
  fun c => if String.eqb c code then false else keys c.

(** The loop over [keyMap] that sums the directions of the keys held. *)
Definition moveOf (keys : Keys) : Z * Z * Z :=
  fold_left
    (fun move entry =>
       let '(code, (dx, dy, dz)) := entry in
       let '(mx, my, mz) := move in
       if keys code then (mx + dx, my + dy, mz + dz)%Z else move)
    keyMap (0, 0, 0)%Z.

(** One frame of the referee: [None] is [refereeRef.current] being null. *)
Definition refereeFrame (keys : Keys) (referee : option Vector3.t)
  : option Vector3.t :=
  match referee with
  | None => None
  | Some pos =>
      let '(mx, my, mz) := moveOf keys in
      if negb (mx =? 0)%Z || negb (my =? 0)%Z || negb (mz =? 0)%Z then
        let dir :=
          Vector3Ops.multiplyScalar
            (Vector3Ops.normalize (Vector3.mk (IZR mx) (IZR my) (IZR mz)))
            moveSpeed in
        Some (Vector3Ops.add pos dir)
      else Some pos
  end.

(** How many of the two keys of a direction are held. *)
Definition held (keys : Keys) (a b : string) : Z :=
  (if keys a then 1 else 0) + (if keys b then 1 else 0).

(** ** The clock of the scoreboard *)

(** [String(n)] for an integer [n]. *)
Definition String_of_number (n : Z) : string :=
  NilZero.string_of_int (Z.to_int n).

(** [n] characters that cycle through [pad], resuming at [rest]. *)
Fixpoint padding (n : nat) (pad rest : string) : string :=
  match n with
  | O => EmptyString
  | S k =>
      match rest with
      | String c r => String c (padding k pad r)
      | EmptyString =>
          match pad with
          | String c r => String c (padding k pad r)
          | EmptyString => EmptyString
          end
      end
  end.

(** [s.padStart(targetLength, pad)]. *)
Definition padStart (s : string) (targetLength : nat) (pad : string)
  : string :=
  if (targetLength <=? String.length s)%nat then s
  else (padding (targetLength - String.length s) pad pad ++ s)%string.

(** The text beside the stopwatch: minutes and seconds of [timeLeft].
    [Math.floor(a / 60)] is [Z.div], the remainder [%] is [Z.rem]. *)
Definition clockText (timeLeft : Z) : string :=
  (padStart (String_of_number (timeLeft / 60)) 2 "0"
   ++ ":" ++ padStart (String_of_number (Z.rem timeLeft 60)) 2 "0")%string.

(** Reading a clock text of the form MM:SS back. *)
Definition digitValue (c : Ascii.ascii) : option Z :=
  let n := Ascii.nat_of_ascii c in
  if (48 <=? n)%nat && (n <=? 57)%nat then Some (Z.of_nat (n - 48))
  else None.

Definition readClock (s : string) : option Z :=
  match s with
  | String m1 (String m2 (String sep (String s1 (String s2 EmptyString)))) =>
      match digitValue m1, digitValue m2, digitValue s1, digitValue s2 with
      | Some a, Some b, Some c, Some d =>
          if Ascii.eqb sep ":"%char && (10 * c + d <? 60)%Z
          then Some (60 * (10 * a + b) + (10 * c + d))%Z
          else None
      | _, _, _, _ => None
      end
  | _ => None
  end.

(** ** What the canvas draws for the food *)

Inductive Geometry : Type :=
| boxGeometry (width height depth : R)
| sphereGeometry (radius : R) (widthSegments heightSegments : nat)
| tetrahedronGeometry (radius : R).

(** A [mesh] element: where it is, its scale, the geometry elements among
    its children and the color of its material. *)
Record Mesh : Type := mkMesh {
  mesh_position : Vector3.t;
  mesh_scale : R * R * R;
  mesh_geometries : list Geometry;
  mesh_color : option string
}.

Definition FoodType_eqb (a b : FoodType) : bool :=
  match a, b with
  | cube, cube | sphere, sphere | triangle, triangle => true
  | _, _ => false
  end.

(** [item.type === t]: never so when the type is [undefined]. *)
Definition hasType (item : FoodItem.t) (t : FoodType) : bool :=
  match FoodItem.type item with
  | Some u => FoodType_eqb u t
  | None => false
  end.

(** The [FoodItemMesh] component: [None] is its [return null]. *)
Definition FoodItemMesh (item : FoodItem.t) : option Mesh :=
  if FoodItem.consumed item then None
  else
    Some (mkMesh (FoodItem.position item) (0.5, 0.5, 0.5)
            ((if hasType item cube then [boxGeometry 0.8 0.8 0.8] else [])
             ++ (if hasType item sphere then [sphereGeometry 0.5 16 16] else [])
             ++ (if hasType item triangle then [tetrahedronGeometry 0.6]
                 else []))
            (FoodItem.color item)).

(** The food part of what [Simulation] returns: for each item, in order,
    [false] (nothing drawn) or its [FoodItemMesh] keyed by the item's id. *)
Definition drawnFood (s : Simulation) : list (nat * Mesh) :=
  flat_map
    (fun item =>
       if negb (FoodItem.consumed item) then
         match FoodItemMesh item with
         | Some m => [(FoodItem.id item, m)]
         | None => []
         end
       else [])
    (foodItems s).

(** ** Kinds of events *)

Definition isAnimationFrame (e : Event) : bool :=
  match e with AnimationFrame _ => true | _ => false end.

Definition isClickPlayAgain (e : Event) : bool :=
  match e with ClickPlayAgain => true | _ => false end.

(** What holds of the timer and the two flags on every page: the flags are
    never both set, the time left is between 0 and the duration of a game,
    and a running race has time left. *)
Definition timerInvariant (a : RaceSimulation) : Prop :=
  (isSimulationRunning a && isGameOver a = false) /\
  (0 <= timeLeft a <= gameDuration)%Z /\
  (isSimulationRunning a = true -> 1 <= timeLeft a)%Z.

(** Two pages that differ in the score overlay at most. *)
Definition sameButScores (a b : RaceSimulation) : Prop :=
  playerCount a = playerCount b /\ foodAmount a = foodAmount b /\
  isSimulationRunning a = isSimulationRunning b /\
  isGameOver a = isGameOver b /\ timeLeft a = timeLeft b /\
  simulation a = simulation b.

(** An update that leaves the players and reports every food item
    consumed, for the examples. *)
Definition eatAll : Update :=
  fun ps fs _ =>
    mkUpdateResult ps (map (fun f => FoodItem.set_consumed f true) fs).


(** How many firings of the timer a sequence of events holds. *)
Definition countTicks (es : list Event) : Z :=
  Z.of_nat (length (filter (fun e => match e with TimerTick => true
                                               | _ => false end) es)).


(** ** The update step as rules *)

(** Modelled from the spec: what targeting in the absent [./buffetplayers]
    may settle on for a player at [p]: a nearest unconsumed item with the
    lowest id among the nearest, or nothing when no food is left
    unconsumed. *)
Definition chosen (p : Vector3.t) (fs : list FoodItem.t)
  (ot : option FoodItem.t) : Prop :=
  match ot with
  | Some t => nearestUnconsumed p fs t
  | None => forall f, In f fs -> FoodItem.consumed f = true
  end.

Section Rules.
Variable speed : R.
Variable pickupRadius : R.
Variable facing : R -> R -> Quaternion.t.
Variable sameTickVisible : bool.

(** Modelled from the spec: what a player of the absent [./buffetplayers]
    does once targeting has settled: nothing without a target; with one,
    movement, jump arc and, within the pickup radius of an item nobody has
    claimed yet, consumption. *)
Definition actOn (live : list FoodItem.t) (p : Player.t) (delta : R)
  (ot : option FoodItem.t) : Player.t * list FoodItem.t * list (nat * nat) :=
  match ot with
  | None => (p, live, [])
  | Some t =>
      let p1 := jumpArc (moveToward speed facing p t delta) delta in
      if (if Rlt_dec (distance (Player.position p1) (FoodItem.position t))
                     pickupRadius then true else false)
         && unclaimed live (FoodItem.id t)
      then (addScore p1, claim live (FoodItem.id t),
            [(Player.id p, FoodItem.id t)])
      else (p1, live, [])
  end.

(** Modelled from the spec: a pass of the absent [./buffetplayers] as a
    relation.  Each player in turn acts on any target that targeting may
    settle on; nothing here says that there is only one. *)
Inductive passRule (snapshot : list FoodItem.t) (delta : R)
  : list FoodItem.t -> list Player.t ->
    list Player.t * list FoodItem.t * list (nat * nat) -> Prop :=
| passRule_done : forall live, passRule snapshot delta live [] ([], live, [])
| passRule_turn : forall live p rest ot p' live' c rest' live'' cs,
    chosen (Player.position p)
      (if sameTickVisible then live else snapshot) ot ->
    actOn live p delta ot = (p', live', c) ->
    passRule snapshot delta live' rest (rest', live'', cs) ->
    passRule snapshot delta live (p :: rest)
      (p' :: rest', live'', c ++ cs).

(** Modelled from the spec: the update of the absent [./buffetplayers] as a
    relation: a degenerate tick hands the world back, any other tick is a
    pass. *)
Inductive updateRule (ps : list Player.t) (fs : list FoodItem.t) (delta : R)
  : UpdateResult -> Prop :=
| updateRule_degenerate :
    delta <= 0 -> updateRule ps fs delta (mkUpdateResult ps fs)
| updateRule_pass : forall ps' fs' cs,
    0 < delta -> passRule fs delta fs ps (ps', fs', cs) ->
    updateRule ps fs delta (mkUpdateResult ps' fs').

(** One frame of the game loop over these rules: [useFrame] of the source,
    with its call of [updateBuffetPlayers] answered by any result the
    rules allow. *)
Inductive advance (mapSize : R) : Simulation -> Tick -> Simulation -> Prop :=
| advance_frame : forall s t r,
    updateRule (players s) (foodItems s) (tick_delta t) r ->
    advance mapSize s t
      (next (useFrame (fun _ _ _ => r) (tick_running t) (tick_gameOver t)
               mapSize s (tick_delta t))).

(** An execution over a sequence of ticks: the worlds visited. *)
Inductive trajectory (mapSize : R)
  : Simulation -> list Tick -> list Simulation -> Prop :=
| trajectory_done : forall s, trajectory mapSize s [] []
| trajectory_tick : forall s t s' ts tr,
    advance mapSize s t s' -> trajectory mapSize s' ts tr ->
    trajectory mapSize s (t :: ts) (s' :: tr).
End Rules.

(** The worlds that the game loop visits over a sequence of ticks. *)
Fixpoint trace (update : Update) (mapSize : R) (s : Simulation)
  (ts : list Tick) : list Simulation :=
  match ts with
  | [] => []
  | t :: rest =>
      let s' := next (frameOf update mapSize s t) in
      s' :: trace update mapSize s' rest
  end.

(** Two food items with one id at one distance from the origin, for an
    example. *)
Definition twins : list FoodItem.t :=
  [foodAt 0 1 0 false; foodAt 0 (-1) 0 false].

(** * Properties *)

(** ** The paths through the frame callback *)

Section FramePaths.
Variable update : Update.
Variables (running gameOver : bool) (mapSize : R).
Variables (s : Simulation) (delta : R).

Lemma useFrame_empty :
  players s = [] \/ foodItems s = [] ->
  useFrame update running gameOver mapSize s delta = mkFrame s None false.
Proof.
  unfold useFrame; intros [H | H]; rewrite H; simpl.
  - reflexivity.
  - now rewrite orb_true_r.
Qed.

Lemma nonempty_length {A : Type} (l : list A) :
  l <> [] -> (length l =? 0)%nat = false.
Proof. destruct l; [congruence | reflexivity]. Qed.

Lemma useFrame_advance :
  players s <> [] -> foodItems s <> [] ->
  running = true -> gameOver = false ->
  useFrame update running gameOver mapSize s delta =
  let r := update (players s) (foodItems s) delta in
  mkFrame (mkSimulation (map (clampPlayer mapSize) (result_players r))
                        (result_foodItems r) (deps s))
          (Some (map Player.score
                   (map (clampPlayer mapSize) (result_players r))))
          (forallb FoodItem.consumed (result_foodItems r)).
Proof.
  intros Hp Hf -> ->; unfold useFrame.
  now rewrite (nonempty_length _ Hp), (nonempty_length _ Hf).
Qed.

Lemma useFrame_paused :
  players s <> [] -> foodItems s <> [] ->
  running = false \/ gameOver = true ->
  useFrame update running gameOver mapSize s delta =
  mkFrame s (Some (map Player.score (players s))) false.
Proof.
  intros Hp Hf H; unfold useFrame.
  rewrite (nonempty_length _ Hp), (nonempty_length _ Hf); simpl.
  destruct H as [-> | ->]; [reflexivity | now rewrite andb_false_r].
Qed.
End FramePaths.

(** ** The empty-collection guard *)

Lemma frames_no_food (update : Update) (mapSize : R) (s : Simulation)
  (ts : list Tick) :
  foodItems s = [] -> frames update mapSize s ts = s.
Proof.
  intros H; induction ts as [| t ts IH]; [reflexivity |].
  unfold frames in *; simpl.
  unfold frameOf at 2; rewrite useFrame_empty by (now right); exact IH.
Qed.

(** C1, as the code has it: on a world with no food items the frame callback
    returns at its first line: the world stays as it is, no scores are
    published and the food-depleted signal is not raised; so it is on the
    first frame and on every later one, and no score ever changes. *)
Theorem no_food_frame_returns_early :
  forall (update : Update) (running gameOver : bool) (mapSize : R)
         (s : Simulation) (delta : R) (ts : list Tick),
    foodItems s = [] ->
    useFrame update running gameOver mapSize s delta = mkFrame s None false /\
    frames update mapSize s ts = s.
Proof.
  intros; split; [apply useFrame_empty; now right | now apply frames_no_food].
Qed.

Lemma no_food_frame_returns_early_witness :
  useFrame sampleUpdate true false MAP_SIZE
    (useEffect 4 0 MAP_SIZE zeros mounted) (1 / 60)
  = mkFrame (useEffect 4 0 MAP_SIZE zeros mounted) None false /\
  frames sampleUpdate MAP_SIZE (useEffect 4 0 MAP_SIZE zeros mounted)
    [mkTick true false (1 / 60); mkTick true false (1 / 60)]
  = useEffect 4 0 MAP_SIZE zeros mounted.
Proof. apply no_food_frame_returns_early; reflexivity. Defined.

(** C1 as stated fails: four players, no food, a running race; the first
    frame does not raise the food-depleted signal. *)
Lemma no_food_first_frame_not_depleted :
  foodDepleted
    (useFrame sampleUpdate true false MAP_SIZE
       (useEffect 4 0 MAP_SIZE zeros mounted) (1 / 60)) = false.
Proof. rewrite useFrame_empty; [reflexivity | now right]. Qed.

(** ** Frames outside a running race *)

(** C10: when the race is not running or is over, a frame leaves the
    component's state as it is and raises no food-depleted signal; all it
    does is publish the current scores (and not even that while a
    collection is empty). *)
Theorem paused_frame_changes_nothing :
  forall (update : Update) (running gameOver : bool) (mapSize : R)
         (s : Simulation) (delta : R),
    running = false \/ gameOver = true ->
    let f := useFrame update running gameOver mapSize s delta in
    next f = s /\ foodDepleted f = false /\
    published f =
      if (length (players s) =? 0)%nat || (length (foodItems s) =? 0)%nat
      then None else Some (map Player.score (players s)).
Proof.
  intros update running gameOver mapSize s delta H; cbv zeta.
  unfold useFrame.
  destruct ((length (players s) =? 0)%nat || (length (foodItems s) =? 0)%nat);
    [now repeat split |].
  assert (running && negb gameOver = false) as ->
    by (destruct H as [-> | ->]; [reflexivity | now rewrite andb_false_r]).
  now repeat split.
Qed.

Lemma paused_frame_changes_nothing_witness :
  let s := mkSimulation [playerAt 0 1 2 3] [foodAt 0 4 5 false] None in
  let f := useFrame sampleUpdate false true MAP_SIZE s (1 / 60) in
  next f = s /\ foodDepleted f = false /\ published f = Some [3%nat].
Proof.
  exact (paused_frame_changes_nothing sampleUpdate false true MAP_SIZE
           (mkSimulation [playerAt 0 1 2 3] [foodAt 0 4 5 false] None)
           (1 / 60) (or_introl eq_refl)).
Defined.

(** ** The boundary invariant *)

Lemma clamp_in_range (m v : R) :
  0 <= m -> - m <= Rmax (- m) (Rmin m v) <= m.
Proof.
  intros Hm; unfold Rmax, Rmin.
  destruct (Rle_dec m v); destruct (Rle_dec (- m) _); lra.
Qed.

Lemma clamp_id (m v : R) :
  - m <= v <= m -> Rmax (- m) (Rmin m v) = v.
Proof.
  intros Hv; unfold Rmax, Rmin.
  destruct (Rle_dec m v); destruct (Rle_dec (- m) _); lra.
Qed.

Lemma clampPlayer_inArena (m : R) (p : Player.t) :
  0 <= m -> inArena m (clampPlayer m p).
Proof.
  intros Hm; unfold inArena, clampPlayer; simpl.
  split; now apply clamp_in_range.
Qed.

Lemma clampPlayer_id (m : R) (p : Player.t) :
  inArena m p -> clampPlayer m p = p.
Proof.
  intros [Hx Hz]; unfold clampPlayer, Player.set_position,
    Vector3.set_x, Vector3.set_z; simpl.
  rewrite (clamp_id _ _ Hx), (clamp_id _ _ Hz).
  destruct p as [i [px py pz] q v sc c j vv]; reflexivity.
Qed.

Lemma spawnPlayer_inArena (playerCount : Z) (m : R) (i : nat) :
  0 <= m -> inArena m (spawnPlayer playerCount m i).
Proof.
  intros Hm; unfold inArena, spawnPlayer; simpl.
  set (a := INR i / IZR playerCount * PI * 2).
  pose proof (COS_bound a) as [Hc1 Hc2].
  pose proof (SIN_bound a) as [Hs1 Hs2].
  split; split; nra.
Qed.

Lemma newPlayers_inArena (playerCount : Z) (m : R) :
  0 <= m -> Forall (inArena m) (newPlayers playerCount m).
Proof.
  intros Hm; unfold newPlayers; apply Forall_map, Forall_forall.
  intros i _; now apply spawnPlayer_inArena.
Qed.

Section Arena.
Variable update : Update.

(** After a frame every player is within the arena, whatever
    [updateBuffetPlayers] returned, provided they were before. *)
Lemma useFrame_inArena (running gameOver : bool) (m : R) (s : Simulation)
  (delta : R) :
  0 <= m ->
  Forall (inArena m) (players s) ->
  Forall (inArena m)
    (players (next (useFrame update running gameOver m s delta))).
Proof.
  intros Hm Hs; unfold useFrame.
  destruct (_ || _); [exact Hs |].
  destruct (_ && _); [| exact Hs].
  simpl; apply Forall_map, Forall_forall.
  intros p _; now apply clampPlayer_inArena.
Qed.

Lemma MAP_SIZE_nonneg : 0 <= MAP_SIZE.
Proof. unfold MAP_SIZE; lra. Qed.

Lemma render_playersOf (a : RaceSimulation) :
  Forall (inArena MAP_SIZE) (playersOf a) ->
  Forall (inArena MAP_SIZE) (playersOf (render a)).
Proof.
  unfold render, playersOf.
  destruct (canvasVisible a); simpl; [| constructor].
  destruct (simulation a) eqn:E; simpl; [now rewrite E | constructor].
Qed.

Lemma dispatch_inArena (a : RaceSimulation) (e : Event) :
  Forall (inArena MAP_SIZE) (playersOf a) ->
  Forall (inArena MAP_SIZE) (playersOf (dispatch update a e)).
Proof.
  intros Ha; destruct e; simpl.
  - destruct (barVisible a); [apply render_playersOf |]; exact Ha.
  - destruct (barVisible a); [apply render_playersOf |]; exact Ha.
  - destruct (barVisible a); [apply render_playersOf |]; exact Ha.
  - destruct (isGameOver a); [apply render_playersOf |]; exact Ha.
  - destruct (_ && _); [apply render_playersOf |]; [| exact Ha].
    unfold timerTick; destruct (_ <=? _)%Z; exact Ha.
  - unfold runEffect.
    destruct (simulation a) as [s |] eqn:Es; [| exact Ha].
    destruct (depsChanged _ _ _ _); [| exact Ha].
    unfold playersOf; simpl; apply newPlayers_inArena, MAP_SIZE_nonneg.
  - apply render_playersOf.
    unfold animationFrame.
    destruct (simulation a) as [s |] eqn:Es; [| exact Ha].
    assert (Forall (inArena MAP_SIZE) (players s)) as Hs
      by (unfold playersOf in Ha; now rewrite Es in Ha).
    pose proof (useFrame_inArena (isSimulationRunning a) (isGameOver a)
                  MAP_SIZE s delta MAP_SIZE_nonneg Hs) as H.
    destruct (useFrame _ _ _ _ _ _) as [n pub dep]; simpl in *.
    destruct dep, pub; exact H.
Qed.

Lemma run_inArena (es : list Event) (a : RaceSimulation) :
  Forall (inArena MAP_SIZE) (playersOf a) ->
  Forall (inArena MAP_SIZE) (playersOf (run update a es)).
Proof.
  revert a; induction es as [| e es IH]; intros a Ha; [exact Ha |].
  apply IH, dispatch_inArena, Ha.
Qed.
End Arena.

(** C5: whatever has happened to the page, and whatever
    [updateBuffetPlayers] returns, after a frame every player of the
    simulation has its x and z within [[-mapSize, mapSize]]. *)
Theorem players_stay_in_arena :
  forall (update : Update) (es : list Event) (delta : R),
    Forall (inArena MAP_SIZE)
      (playersOf (run update initial (es ++ [AnimationFrame delta]))).
Proof.
  intros; apply run_inArena; constructor.
Qed.

(** ** Configuration *)

Lemma onChange_playerCount_clamps (v : Parsed) :
  onChange_playerCount v = clampCount 1 8 v.
Proof.
  unfold onChange_playerCount, clampCount, or_else.
  destruct v as [| n]; [reflexivity |].
  destruct (Z.eqb_spec n 0), (Z.ltb_spec n 1), (Z.ltb_spec 8 n); lia.
Qed.

Lemma onChange_foodAmount_clamps (v : Parsed) :
  onChange_foodAmount v = clampCount 1 500 v.
Proof.
  unfold onChange_foodAmount, clampCount, or_else.
  destruct v as [| n]; [reflexivity |].
  destruct (Z.eqb_spec n 0), (Z.ltb_spec n 1), (Z.ltb_spec 500 n); lia.
Qed.

Lemma newPlayers_length (playerCount : Z) (m : R) :
  length (newPlayers playerCount m) = Z.to_nat playerCount.
Proof. unfold newPlayers; now rewrite length_map, length_seq. Qed.

Lemma newFoodItems_length (foodAmount : Z) (m : R) (rnd : nat -> R) :
  length (newFoodItems foodAmount m rnd) = Z.to_nat foodAmount.
Proof. unfold newFoodItems; now rewrite length_map, length_seq. Qed.

Section Counts.
Variable update : Update.

Lemma render_counts (a : RaceSimulation) :
  playerCount (render a) = playerCount a /\
  foodAmount (render a) = foodAmount a.
Proof.
  unfold render; destruct (canvasVisible a); [| easy].
  now destruct (simulation a).
Qed.

Lemma animationFrame_counts (delta : R) (a : RaceSimulation) :
  playerCount (animationFrame update delta a) = playerCount a /\
  foodAmount (animationFrame update delta a) = foodAmount a.
Proof.
  unfold animationFrame; destruct (simulation a); [| easy].
  destruct (useFrame _ _ _ _ _ _) as [n pub dep]; simpl.
  now destruct dep, pub.
Qed.

Lemma dispatch_counts (a : RaceSimulation) (e : Event) :
  countsInRange a -> countsInRange (dispatch update a e).
Proof.
  unfold countsInRange; intros Ha.
  destruct e; simpl.
  - destruct (barVisible a); [| exact Ha].
    destruct (render_counts (setPlayerCount (onChange_playerCount v) a))
      as [-> ->]; simpl.
    rewrite onChange_playerCount_clamps; unfold clampCount.
    destruct v as [| n]; [lia |].
    destruct (Z.ltb_spec n 1), (Z.ltb_spec 8 n); lia.
  - destruct (barVisible a); [| exact Ha].
    destruct (render_counts (setFoodAmount (onChange_foodAmount v) a))
      as [-> ->]; simpl.
    rewrite onChange_foodAmount_clamps; unfold clampCount.
    destruct v as [| n]; [lia |].
    destruct (Z.ltb_spec n 1), (Z.ltb_spec 500 n); lia.
  - destruct (barVisible a); [| exact Ha].
    destruct (render_counts (startSimulation a)) as [-> ->]; exact Ha.
  - destruct (isGameOver a); [| exact Ha].
    destruct (render_counts (handlePlayAgain a)) as [-> ->]; exact Ha.
  - destruct (_ && _); [| exact Ha].
    destruct (render_counts (timerTick a)) as [-> ->].
    unfold timerTick; destruct (_ <=? _)%Z; exact Ha.
  - unfold runEffect; destruct (simulation a); [| exact Ha].
    destruct (depsChanged _ _ _ _); exact Ha.
  - destruct (render_counts (animationFrame update delta a)) as [-> ->].
    destruct (animationFrame_counts delta a) as [-> ->]; exact Ha.
Qed.

Lemma run_counts (es : list Event) (a : RaceSimulation) :
  countsInRange a -> countsInRange (run update a es).
Proof.
  revert a; induction es as [| e es IH]; intros a Ha; [exact Ha |].
  apply IH, dispatch_counts, Ha.
Qed.
End Counts.

(** C3, as the code has it: a requested count is never rejected.  The input
    handlers clamp it into range (players into 1..8, food into 1..500; an
    entry that is not a number, zero or negative becomes 1), so the counts
    of the page are in range whatever was typed, and construction builds
    exactly that many players and food items. *)
Theorem counts_are_clamped_not_rejected :
  forall (update : Update) (v : Parsed) (es : list Event) (rnd : nat -> R),
    onChange_playerCount v = clampCount 1 8 v /\
    onChange_foodAmount v = clampCount 1 500 v /\
    (let a := run update initial es in
     (1 <= playerCount a <= 8)%Z /\ (1 <= foodAmount a <= 500)%Z /\
     length (newPlayers (playerCount a) MAP_SIZE) = Z.to_nat (playerCount a) /\
     length (newFoodItems (foodAmount a) MAP_SIZE rnd)
     = Z.to_nat (foodAmount a)).
Proof.
  intros update v es rnd.
  split; [apply onChange_playerCount_clamps |].
  split; [apply onChange_foodAmount_clamps |].
  cbv zeta.
  assert (countsInRange (run update initial es)) as [Hp Hf]
    by (apply run_counts; unfold countsInRange, initial; simpl; lia).
  repeat split; try lia.
  - apply newPlayers_length.
  - apply newFoodItems_length.
Qed.

(** C3 as stated fails: 20 players and 1000 food items are requested, the
    race starts, and a world of 8 players and 500 food items is built. *)
Lemma out_of_range_counts_build_a_world :
  let a := run sampleUpdate initial
             [ChangePlayerCount (Int 20); ChangeFoodAmount (Int 1000);
              ClickStart; RunEffect zeros] in
  playerCount a = 8%Z /\ foodAmount a = 500%Z /\
  isSimulationRunning a = true /\
  length (playersOf a) = 8%nat /\ length (foodItemsOf a) = 500%nat.
Proof. cbv zeta; repeat split; reflexivity. Qed.

(** ** The spawn rule *)

Lemma newPlayers_nth (playerCount : Z) (m : R) (i : nat) :
  (i < Z.to_nat playerCount)%nat ->
  nth_error (newPlayers playerCount m) i = Some (spawnPlayer playerCount m i).
Proof.
  intros Hi; unfold newPlayers.
  rewrite nth_error_map, nth_error_seq.
  destruct (Nat.ltb_spec i (Z.to_nat playerCount)); [reflexivity | lia].
Qed.

(** The heading of a spawned player: the turn by minus its angle about the
    vertical axis carries the local x axis onto the outward radius and the
    local z axis onto the tangent. *)
Lemma spawn_heading_x (a : R) :
  Quaternion.apply (Quaternion.setFromAxisAngle (Vector3.mk 0 1 0) (- a))
    (Vector3.mk 1 0 0)
  = Vector3.mk (cos a) 0 (sin a).
Proof.
  unfold Quaternion.apply, Quaternion.setFromAxisAngle; simpl.
  replace (- a / 2) with (- (a / 2)) by lra.
  rewrite sin_neg, cos_neg.
  assert (cos a = 1 - 2 * sin (a / 2) * sin (a / 2)) as Hc.
  { replace a with (2 * (a / 2)) at 1 by lra. apply cos_2a_sin. }
  assert (sin a = 2 * sin (a / 2) * cos (a / 2)) as Hs.
  { replace a with (2 * (a / 2)) at 1 by lra. apply sin_2a. }
  f_equal; lra.
Qed.

Lemma spawn_heading_z (a : R) :
  Quaternion.apply (Quaternion.setFromAxisAngle (Vector3.mk 0 1 0) (- a))
    (Vector3.mk 0 0 1)
  = Vector3.mk (- sin a) 0 (cos a).
Proof.
  unfold Quaternion.apply, Quaternion.setFromAxisAngle; simpl.
  replace (- a / 2) with (- (a / 2)) by lra.
  rewrite sin_neg, cos_neg.
  assert (cos a = 1 - 2 * sin (a / 2) * sin (a / 2)) as Hc.
  { replace a with (2 * (a / 2)) at 1 by lra. apply cos_2a_sin. }
  assert (sin a = 2 * sin (a / 2) * cos (a / 2)) as Hs.
  { replace a with (2 * (a / 2)) at 1 by lra. apply sin_2a. }
  f_equal; lra.
Qed.

(** C6, as the code has it: player [i] of a new world is on the circle of
    radius [0.75 * mapSize] about the origin, at [i / playerCount] of a full
    turn; its heading is the turn by minus that angle about the vertical
    axis, which lays its local x axis along the outward radius and its
    facing direction, the local z axis, along the tangent of the circle; its
    score is 0 and its velocity is zero. *)
Theorem players_spawn_on_circle :
  forall (playerCount : Z) (mapSize : R) (i : nat),
    (i < Z.to_nat playerCount)%nat ->
    exists p,
      nth_error (newPlayers playerCount mapSize) i = Some p /\
      let a := spawnAngle playerCount i in
      let r := spawnRadius mapSize in
      let pos := Player.position p in
      Vector3.x pos = r * cos a /\ Vector3.z pos = r * sin a /\
      Vector3.x pos * Vector3.x pos + Vector3.z pos * Vector3.z pos = r * r /\
      Player.quaternion p
      = Quaternion.setFromAxisAngle (Vector3.mk 0 1 0) (- a) /\
      Quaternion.apply (Player.quaternion p) (Vector3.mk 1 0 0)
      = Vector3.mk (cos a) 0 (sin a) /\
      getWorldDirection (Player.quaternion p) = Vector3.mk (- sin a) 0 (cos a) /\
      Vector3.x pos * Vector3.x (getWorldDirection (Player.quaternion p))
      + Vector3.z pos * Vector3.z (getWorldDirection (Player.quaternion p)) = 0 /\
      Player.score p = 0%nat /\
      Player.velocity p = Vector3.mk 0 0 0.
Proof.
  intros playerCount mapSize i Hi.
  exists (spawnPlayer playerCount mapSize i).
  split; [now apply newPlayers_nth |].
  cbv zeta; unfold spawnPlayer, spawnAngle, spawnRadius, getWorldDirection.
  cbn [Player.position Player.quaternion Player.score Player.velocity
       Vector3.x Vector3.y Vector3.z].
  replace (INR i / IZR playerCount * PI * 2)
     with (INR i / IZR playerCount * (2 * PI)) by lra.
  set (a := INR i / IZR playerCount * (2 * PI)).
  pose proof (sin2_cos2 a) as H; unfold Rsqr in H.
  rewrite spawn_heading_x, spawn_heading_z.
  cbn [Vector3.x Vector3.y Vector3.z].
  repeat split; try reflexivity; try lra; nra.
Qed.

Lemma players_spawn_on_circle_witness :
  exists p,
    nth_error (newPlayers 4 MAP_SIZE) 1 = Some p /\
    Vector3.x (Player.position p)
    = spawnRadius MAP_SIZE * cos (spawnAngle 4 1) /\
    Player.score p = 0%nat.
Proof.
  destruct (players_spawn_on_circle 4 MAP_SIZE 1 ltac:(simpl; lia))
    as [p [Hn [Hx [_ [_ [_ [_ [_ [_ [Hs _]]]]]]]]]].
  exists p; repeat split; assumption.
Defined.

(** C6 as stated fails on the heading: the first of four players spawns at
    (6, 0.5, 0) with the identity as its heading, so it faces along the z
    axis, the tangent of the circle there; neither that direction nor its
    opposite leads to the centre, and its local x axis points away from
    it. *)
Lemma first_player_faces_along_tangent :
  exists p,
    nth_error (newPlayers 4 MAP_SIZE) 0 = Some p /\
    Vector3.x (Player.position p) = 6 /\
    Vector3.z (Player.position p) = 0 /\
    getWorldDirection (Player.quaternion p) = Vector3.mk 0 0 1 /\
    forwardDirection (Player.quaternion p) = Vector3.mk 0 0 (-1) /\
    ~ towardCentre (Player.position p)
        (getWorldDirection (Player.quaternion p)) /\
    ~ towardCentre (Player.position p)
        (forwardDirection (Player.quaternion p)) /\
    ~ towardCentre (Player.position p)
        (Quaternion.apply (Player.quaternion p) (Vector3.mk 1 0 0)).
Proof.
  exists (spawnPlayer 4 MAP_SIZE 0).
  split; [apply newPlayers_nth; simpl; lia |].
  unfold spawnPlayer, MAP_SIZE, getWorldDirection, forwardDirection.
  cbn [Player.position Player.quaternion Vector3.x Vector3.z].
  replace (INR 0 / IZR 4 * PI * 2) with 0 by (simpl; lra).
  rewrite cos_0, sin_0.
  assert (Quaternion.setFromAxisAngle (Vector3.mk 0 1 0) (- 0)
          = Quaternion.mk 0 0 0 1) as ->.
  { unfold Quaternion.setFromAxisAngle; simpl.
    replace (- 0 / 2) with 0 by lra.
    rewrite cos_0, sin_0; f_equal; lra. }
  assert (Quaternion.apply (Quaternion.mk 0 0 0 1) (Vector3.mk 0 0 1)
          = Vector3.mk 0 0 1) as ->
    by (unfold Quaternion.apply; simpl; f_equal; lra).
  assert (Quaternion.apply (Quaternion.mk 0 0 0 1) (Vector3.mk 0 0 (-1))
          = Vector3.mk 0 0 (-1)) as ->
    by (unfold Quaternion.apply; simpl; f_equal; lra).
  assert (Quaternion.apply (Quaternion.mk 0 0 0 1) (Vector3.mk 1 0 0)
          = Vector3.mk 1 0 0) as ->
    by (unfold Quaternion.apply; simpl; f_equal; lra).
  repeat split; try lra.
  - intros [k [Hk [Hx _]]]; simpl in Hx; lra.
  - intros [k [Hk [Hx _]]]; simpl in Hx; lra.
  - intros [k [Hk [Hx _]]]; simpl in Hx; lra.
Qed.

Lemma Int_part_bounds (r : R) (n : nat) :
  (0 < n)%nat -> 0 <= r < 1 -> (0 <= Int_part (r * INR n) < Z.of_nat n)%Z.
Proof.
  intros Hpos [H0 H1].
  destruct (base_Int_part (r * INR n)) as [Hlo Hhi].
  assert (0 < INR n) as Hn by (apply lt_0_INR; exact Hpos).
  split.
  - assert (-1 < IZR (Int_part (r * INR n))) as H by nra.
    apply lt_IZR in H; lia.
  - apply lt_IZR; rewrite <- INR_IZR_INZ; nra.
Qed.

Lemma pick_in {A : Type} (arr : list A) (r : R) :
  arr <> [] -> 0 <= r < 1 -> exists v, pick arr r = Some v /\ In v arr.
Proof.
  intros Hne Hr; unfold pick, js_index.
  assert (0 < length arr)%nat as Hlen
    by (destruct arr; [congruence | simpl; lia]).
  destruct (Int_part_bounds r (length arr) Hlen Hr) as [Hlo Hhi].
  destruct (Z.ltb_spec (Int_part (r * INR (length arr))) 0); [lia |].
  destruct (nth_error arr (Z.to_nat (Int_part (r * INR (length arr)))))
    as [v |] eqn:E.
  - exists v; split; [reflexivity | eapply nth_error_In; exact E].
  - apply nth_error_None in E; lia.
Qed.

Lemma spawnFood_fresh (mapSize : R) (rnd : nat -> R) (i : nat) :
  (forall n, 0 <= rnd n < 1) -> margin <= mapSize ->
  freshFood mapSize (spawnFood mapSize rnd i).
Proof.
  intros Hrnd Hm; unfold freshFood, spawnFood, margin, groundHeight in *.
  cbn [FoodItem.position FoodItem.type FoodItem.consumed
       Vector3.x Vector3.y Vector3.z].
  pose proof (Hrnd (4 * i)%nat) as Hx.
  pose proof (Hrnd (4 * i + 1)%nat) as Hz.
  repeat split; try nra.
  apply pick_in; [discriminate | apply Hrnd].
Qed.

(** C7: with [Math.random] drawing from [[0, 1)] and the arena at least as
    wide as the margin of 0.5, every food item of a new world lies within
    [[-mapSize + margin, mapSize - margin]] on both horizontal axes, at the
    common ground height, has a shape out of the fixed set and is not
    consumed. *)
Theorem food_spawns_inside_margin :
  forall (foodAmount : Z) (mapSize : R) (rnd : nat -> R),
    (forall n, 0 <= rnd n < 1) ->
    margin <= mapSize ->
    Forall (freshFood mapSize) (newFoodItems foodAmount mapSize rnd).
Proof.
  intros foodAmount mapSize rnd Hrnd Hm.
  unfold newFoodItems; apply Forall_map, Forall_forall.
  intros i _; now apply spawnFood_fresh.
Qed.

Lemma food_spawns_inside_margin_witness :
  Forall (freshFood MAP_SIZE) (newFoodItems 100 MAP_SIZE zeros).
Proof.
  apply food_spawns_inside_margin.
  - intros n; unfold zeros; lra.
  - unfold margin, MAP_SIZE; lra.
Defined.

(** ** Restarting a race *)

Lemma depsChanged_same (pc fa : Z) (ms : R) :
  depsChanged (Some (pc, fa, ms)) pc fa ms = false.
Proof.
  unfold depsChanged; rewrite !Z.eqb_refl.
  destruct (Req_dec_T ms ms); [reflexivity | contradiction].
Qed.

Section Restart.
Variable update : Update.

(** Play Again with the effect's dependencies unchanged: the element stays,
    the effect does not run, the world is the one the last race left. *)
Lemma play_again_keeps_element (a : RaceSimulation) (s : Simulation)
  (rnd : nat -> R) :
  isGameOver a = true ->
  simulation a = Some s ->
  deps s = Some (playerCount a, foodAmount a, MAP_SIZE) ->
  let a' := run update a [ClickPlayAgain; RunEffect rnd] in
  simulation a' = Some s /\
  isSimulationRunning a' = true /\ isGameOver a' = false /\
  timeLeft a' = gameDuration.
Proof.
  intros Hover Hs Hd; cbv zeta; unfold run; simpl.
  rewrite Hover.
  unfold render, handlePlayAgain, startSimulation, canvasVisible; simpl.
  rewrite Hs; unfold runEffect; simpl; rewrite Hs, Hd, depsChanged_same.
  simpl; now rewrite Hs.
Qed.

Lemma render_element (a : RaceSimulation) :
  match simulation a with
  | Some s => deps s = None \/
              deps s = Some (playerCount a, foodAmount a, MAP_SIZE)
  | None => True
  end ->
  elementInvariant (render a).
Proof.
  unfold elementInvariant, render; intros H.
  destruct (canvasVisible a) eqn:Ec.
  - destruct (simulation a) as [s |] eqn:Es.
    + rewrite Es; split; assumption.
    + simpl; split; [exact Ec | now left].
  - simpl; exact Ec.
Qed.

Lemma dispatch_element (a : RaceSimulation) (e : Event) :
  elementInvariant a -> elementInvariant (dispatch update a e).
Proof.
  intros Ha; destruct e; simpl.
  - destruct (barVisible a) eqn:Eb; [| exact Ha].
    apply render_element; simpl.
    unfold elementInvariant in Ha.
    destruct (simulation a); [| exact I].
    destruct Ha as [Hc _]; unfold barVisible, canvasVisible in *.
    destruct (isSimulationRunning a), (isGameOver a); discriminate.
  - destruct (barVisible a) eqn:Eb; [| exact Ha].
    apply render_element; simpl.
    unfold elementInvariant in Ha.
    destruct (simulation a); [| exact I].
    destruct Ha as [Hc _]; unfold barVisible, canvasVisible in *.
    destruct (isSimulationRunning a), (isGameOver a); discriminate.
  - destruct (barVisible a); [| exact Ha].
    apply render_element; simpl.
    unfold elementInvariant in Ha.
    destruct (simulation a); [apply Ha | exact I].
  - destruct (isGameOver a); [| exact Ha].
    apply render_element; simpl.
    unfold elementInvariant in Ha.
    destruct (simulation a); [apply Ha | exact I].
  - destruct (_ && _); [| exact Ha].
    apply render_element.
    unfold elementInvariant in Ha.
    unfold timerTick; destruct (_ <=? _)%Z; simpl;
      (destruct (simulation a); [apply Ha | exact I]).
  - unfold runEffect, elementInvariant in *.
    destruct (simulation a) as [s |] eqn:Es; [| now rewrite Es].
    destruct (depsChanged _ _ _ _); [| now rewrite Es].
    simpl; split; [apply Ha | now right].
  - apply render_element.
    unfold animationFrame, elementInvariant in *.
    destruct (simulation a) as [s |] eqn:Es; [| now rewrite Es].
    assert (deps (next (useFrame update (isSimulationRunning a)
                          (isGameOver a) MAP_SIZE s delta)) = deps s) as Hd.
    { unfold useFrame; destruct (_ || _); [reflexivity |].
      destruct (_ && _); reflexivity. }
    destruct (useFrame _ _ _ _ _ _) as [n pub dep]; simpl in *.
    destruct dep, pub; simpl; rewrite Hd; apply Ha.
Qed.

Lemma run_element (es : list Event) (a : RaceSimulation) :
  elementInvariant a -> elementInvariant (run update a es).
Proof.
  revert a; induction es as [| e es IH]; intros a Ha; [exact Ha |].
  apply IH, dispatch_element, Ha.
Qed.

(** On any page that can arise, Play Again after a race whose world was
    built leaves that world in place: same players with their scores and
    positions, same food items with their consumed flags. *)
Lemma play_again_keeps_world (es : list Event) (s : Simulation)
  (rnd : nat -> R) :
  let a := run update initial es in
  isGameOver a = true ->
  simulation a = Some s ->
  deps s <> None ->
  simulation (run update a [ClickPlayAgain; RunEffect rnd]) = Some s.
Proof.
  cbv zeta; intros Hover Hs Hd.
  assert (elementInvariant (run update initial es)) as Hinv
    by (apply run_element; reflexivity).
  unfold elementInvariant in Hinv; rewrite Hs in Hinv.
  destruct Hinv as [_ [Hn | Hdeps]]; [contradiction |].
  now apply play_again_keeps_element.
Qed.
End Restart.

(** ** The update step: targeting *)

Lemma closer_true (p : Vector3.t) (f g : FoodItem.t) :
  closer p f g = true ->
  distance p (FoodItem.position f) <= distance p (FoodItem.position g) /\
  (distance p (FoodItem.position f) = distance p (FoodItem.position g) ->
   (FoodItem.id f <= FoodItem.id g)%nat).
Proof.
  unfold closer.
  destruct (Rlt_dec _ _) as [H | H]; [intros _; split; lra |].
  destruct (Rlt_dec _ _) as [H' | H']; [discriminate |].
  intros E; apply Nat.leb_le in E; split; [lra | auto].
Qed.

Lemma closer_false (p : Vector3.t) (f g : FoodItem.t) :
  closer p f g = false ->
  distance p (FoodItem.position g) <= distance p (FoodItem.position f) /\
  (distance p (FoodItem.position g) = distance p (FoodItem.position f) ->
   (FoodItem.id g <= FoodItem.id f)%nat).
Proof.
  unfold closer.
  destruct (Rlt_dec _ _) as [H | H]; [discriminate |].
  destruct (Rlt_dec _ _) as [H' | H']; [intros _; split; lra |].
  intros E; apply Nat.leb_gt in E; split; [lra | lia].
Qed.

Lemma target_none (p : Vector3.t) (fs : list FoodItem.t) :
  target p fs = None -> forallb FoodItem.consumed fs = true.
Proof.
  induction fs as [| f fs IH]; simpl; [reflexivity |].
  destruct (target p fs) as [g |].
  - destruct (FoodItem.consumed f); [discriminate |].
    destruct (closer p f g); discriminate.
  - destruct (FoodItem.consumed f); [intros _; now apply IH | discriminate].
Qed.

(** Targeting picks what the spec asks for: an unconsumed item at minimum
    distance, the one with the lowest id on a tie. *)
Lemma target_nearest (p : Vector3.t) (fs : list FoodItem.t) :
  forall t, target p fs = Some t -> nearestUnconsumed p fs t.
Proof.
  unfold nearestUnconsumed.
  induction fs as [| f fs IH]; simpl; [discriminate |].
  intros t; destruct (target p fs) as [g |] eqn:Eg.
  - destruct (IH g eq_refl) as [Hin [Hc Hmin]].
    destruct (FoodItem.consumed f) eqn:Ef.
    + intros H; inversion H; subst.
      split; [now right | split; [exact Hc |]].
      intros g' [-> | Hg'] Hc'; [congruence | now apply Hmin].
    + destruct (closer p f g) eqn:Ecl; intros H; inversion H; subst.
      * destruct (closer_true _ _ _ Ecl) as [Hd Hi].
        split; [now left | split; [exact Ef |]].
        intros g' [<- | Hg'] Hc'; [split; [lra | lia] |].
        destruct (Hmin g' Hg' Hc') as [Hd' Hi'].
        split; [lra |].
        intros E.
        assert (distance p (FoodItem.position t)
                = distance p (FoodItem.position g)) as E1 by lra.
        assert (distance p (FoodItem.position g)
                = distance p (FoodItem.position g')) as E2 by lra.
        specialize (Hi E1); specialize (Hi' E2); lia.
      * destruct (closer_false _ _ _ Ecl) as [Hd Hi].
        split; [now right | split; [exact Hc |]].
        intros g' [<- | Hg'] Hc'; [split; assumption | now apply Hmin].
  - destruct (FoodItem.consumed f) eqn:Ef; [discriminate |].
    intros H; inversion H; subst.
    split; [now left | split; [exact Ef |]].
    intros g' [<- | Hg'] Hc'; [split; [lra | lia] |].
    apply target_none in Eg.
    rewrite forallb_forall in Eg; rewrite (Eg g' Hg') in Hc'; discriminate.
Qed.

(** ** The update step: food state *)

Lemma foodLe_refl (f : FoodItem.t) : foodLe f f.
Proof. unfold foodLe; auto. Qed.

Lemma foodLe_trans (f g h : FoodItem.t) :
  foodLe f g -> foodLe g h -> foodLe f h.
Proof.
  unfold foodLe; intros [Hi [Hp Hc]] [Hi' [Hp' Hc']].
  repeat split; [congruence | congruence | auto].
Qed.

Lemma Forall2_foodLe_refl (fs : list FoodItem.t) : Forall2 foodLe fs fs.
Proof. induction fs; constructor; [apply foodLe_refl | assumption]. Qed.

Lemma Forall2_foodLe_trans (fs gs hs : list FoodItem.t) :
  Forall2 foodLe fs gs -> Forall2 foodLe gs hs -> Forall2 foodLe fs hs.
Proof.
  intros H; revert hs; induction H; intros hs H'; inversion H'; subst;
    constructor; [eapply foodLe_trans; eassumption | auto].
Qed.

Lemma claim_foodLe (fs : list FoodItem.t) (i : nat) :
  Forall2 foodLe fs (claim fs i).
Proof.
  induction fs as [| f fs IH]; simpl; constructor; [| exact IH].
  destruct (FoodItem.id f =? i)%nat; [| apply foodLe_refl].
  unfold foodLe; simpl; auto.
Qed.

Lemma unclaimed_claim (fs : list FoodItem.t) (i : nat) :
  unclaimed (claim fs i) i = false.
Proof.
  unfold unclaimed; induction fs as [| f fs IH]; simpl; [reflexivity |].
  destruct (FoodItem.id f =? i)%nat eqn:E; simpl; rewrite E;
    [reflexivity | exact IH].
Qed.

(** Once an id cannot be claimed it never can again. *)
Lemma unclaimed_false_mono (fs gs : list FoodItem.t) (i : nat) :
  Forall2 foodLe fs gs -> unclaimed fs i = false -> unclaimed gs i = false.
Proof.
  unfold unclaimed; induction 1 as [| f g fs gs [Hi [_ Hc]] _ IH]; simpl;
    [auto |].
  rewrite <- Hi; destruct (FoodItem.id f =? i)%nat; [| exact IH].
  destruct (FoodItem.consumed f); [| discriminate].
  now rewrite Hc.
Qed.

Lemma unclaimed_true_back (fs gs : list FoodItem.t) (i : nat) :
  Forall2 foodLe fs gs -> unclaimed gs i = true -> unclaimed fs i = true.
Proof.
  intros H Hg; destruct (unclaimed fs i) eqn:E; [reflexivity |].
  rewrite (unclaimed_false_mono _ _ _ H E) in Hg; discriminate.
Qed.

Lemma target_all_consumed (p : Vector3.t) (fs : list FoodItem.t) :
  forallb FoodItem.consumed fs = true -> target p fs = None.
Proof.
  induction fs as [| f fs IH]; simpl; [reflexivity |].
  intros H; apply andb_prop in H as [Hf Hfs].
  now rewrite (IH Hfs), Hf.
Qed.

Lemma jumpArc_horizontal (p : Player.t) (delta : R) :
  horizontal (jumpArc p delta) = horizontal p.
Proof.
  unfold jumpArc, horizontal.
  destruct (Player.isJumping p) as [[|] |]; try reflexivity.
  destruct (Rle_dec _ _); reflexivity.
Qed.

Lemma jumpArc_score (p : Player.t) (delta : R) :
  Player.score (jumpArc p delta) = Player.score p.
Proof.
  unfold jumpArc.
  destruct (Player.isJumping p) as [[|] |]; try reflexivity.
  destruct (Rle_dec _ _); reflexivity.
Qed.

Lemma clampPlayer_score (m : R) (p : Player.t) :
  Player.score (clampPlayer m p) = Player.score p.
Proof. reflexivity. Qed.

Lemma claimsSound_nil (fs gs : list FoodItem.t) : claimsSound fs gs [].
Proof. split; constructor. Qed.

Lemma claimsSound_app (fs gs hs : list FoodItem.t) (c cs : list (nat * nat)) :
  Forall2 foodLe fs gs -> Forall2 foodLe gs hs ->
  claimsSound fs gs c -> claimsSound gs hs cs ->
  claimsSound fs hs (c ++ cs).
Proof.
  intros Hfg Hgh [Nc Fc] [Ncs Fcs]; unfold claimsSound.
  rewrite map_app; rewrite Forall_forall in Fc, Fcs; split.
  - apply NoDup_app; [exact Nc | exact Ncs |].
    intros i Hi Hi'.
    destruct (Fc i Hi) as [_ H1]; destruct (Fcs i Hi') as [H2 _].
    congruence.
  - apply Forall_app; split; apply Forall_forall; intros i Hi.
    + destruct (Fc i Hi) as [H1 H2]; split; [exact H1 |].
      eapply unclaimed_false_mono; eassumption.
    + destruct (Fcs i Hi) as [H1 H2]; split; [| exact H2].
      eapply unclaimed_true_back; eassumption.
Qed.

Section UpdateStep.
Variables (speed pickupRadius : R).
Variable facing : R -> R -> Quaternion.t.
Variable sameTickVisible : bool.

Let turn := updatePlayer speed pickupRadius facing sameTickVisible.
Let sweep := pass speed pickupRadius facing sameTickVisible.
Let step := updateBuffetPlayers speed pickupRadius facing sameTickVisible.

Lemma moveToward_score (p : Player.t) (t : FoodItem.t) (delta : R) :
  Player.score (moveToward speed facing p t delta) = Player.score p.
Proof. reflexivity. Qed.

Lemma moveToward_zero (p : Player.t) (t : FoodItem.t) :
  horizontal (moveToward speed facing p t 0) = horizontal p.
Proof. unfold horizontal, moveToward; simpl; f_equal; ring. Qed.

(** One player's turn: food flags only go up, the claim it makes is sound,
    and its score goes up by the number of claims it made. *)
Lemma updatePlayer_spec (snapshot live : list FoodItem.t) (p : Player.t)
  (delta : R) :
  forall p' live' c,
    turn snapshot live p delta = (p', live', c) ->
    Forall2 foodLe live live' /\ claimsSound live live' c /\
    Player.score p' = (Player.score p + length c)%nat /\
    (delta = 0 -> horizontal p' = horizontal p).
Proof.
  unfold turn, updatePlayer; intros p' live' c.
  destruct (target _ _) as [t |].
  - destruct (_ && _) eqn:E; intros H; inversion H; subst; clear H.
    + apply andb_prop in E as [_ Hu].
      repeat split.
      * apply claim_foodLe.
      * simpl; constructor; [intros [] | constructor].
      * simpl; constructor; [| constructor].
        split; [exact Hu | apply unclaimed_claim].
      * simpl; rewrite jumpArc_score, moveToward_score; lia.
      * intros ->; unfold addScore, horizontal; simpl.
        change (horizontal (jumpArc (moveToward speed facing p t 0) 0)
                = horizontal p).
        now rewrite jumpArc_horizontal, moveToward_zero.
    + repeat split.
      * apply Forall2_foodLe_refl.
      * constructor.
      * constructor.
      * simpl; rewrite jumpArc_score, moveToward_score; lia.
      * intros ->; now rewrite jumpArc_horizontal, moveToward_zero.
  - intros H; inversion H; subst; clear H.
    repeat split; try constructor; simpl; try lia.
    apply Forall2_foodLe_refl.
Qed.

Lemma pass_spec (snapshot : list FoodItem.t) (ps : list Player.t) (delta : R) :
  forall live ps' live' cs,
    sweep snapshot live ps delta = (ps', live', cs) ->
    Forall2 foodLe live live' /\ claimsSound live live' cs /\
    totalScore ps' = (totalScore ps + length cs)%nat /\
    (delta = 0 -> map horizontal ps' = map horizontal ps).
Proof.
  unfold sweep; induction ps as [| p ps IH]; intros live ps' live' cs; simpl.
  - intros H; inversion H; subst.
    repeat split; try constructor; auto using Forall2_foodLe_refl.
  - destruct (updatePlayer _ _ _ _ _ _ _ _) as [[p1 live1] c] eqn:E1.
    destruct (pass _ _ _ _ _ _ _ _) as [[ps2 live2] cs2] eqn:E2.
    intros H; inversion H; subst; clear H.
    destruct (updatePlayer_spec _ _ _ _ _ _ _ E1) as [L1 [C1 [S1 Z1]]].
    destruct (IH _ _ _ _ E2) as [L2 [C2 [S2 Z2]]].
    repeat split.
    + eapply Forall2_foodLe_trans; eassumption.
    + apply (proj1 (claimsSound_app _ _ _ _ _ L1 L2 C1 C2)).
    + apply (proj2 (claimsSound_app _ _ _ _ _ L1 L2 C1 C2)).
    + unfold totalScore in *; simpl; rewrite S1, S2, length_app; lia.
    + intros Hd; simpl; now rewrite (Z1 Hd), (Z2 Hd).
Qed.

Lemma updateBuffetPlayers_spec (ps : list Player.t) (fs : list FoodItem.t)
  (delta : R) :
  let r := step ps fs delta in
  let cs := claimsOf speed pickupRadius facing sameTickVisible ps fs delta in
  Forall2 foodLe fs (result_foodItems r) /\
  claimsSound fs (result_foodItems r) cs /\
  totalScore (result_players r) = (totalScore ps + length cs)%nat /\
  (delta = 0 -> map horizontal (result_players r) = map horizontal ps).
Proof.
  unfold step, updateBuffetPlayers, claimsOf; cbv zeta.
  destruct (Rle_dec delta 0).
  - simpl; repeat split; try constructor; try lia; auto.
    apply Forall2_foodLe_refl.
  - destruct (pass _ _ _ _ _ _ _ _) as [[ps' fs'] cs] eqn:E.
    exact (pass_spec _ _ _ _ _ _ _ E).
Qed.

(** On a tick that is not degenerate the update is the pass. *)
Lemma updateBuffetPlayers_positive (ps : list Player.t)
  (fs : list FoodItem.t) (delta : R) :
  0 < delta ->
  step ps fs delta
  = (let '(ps', fs', _) := sweep fs fs ps delta in mkUpdateResult ps' fs').
Proof.
  intros Hd; unfold step, sweep, updateBuffetPlayers.
  destruct (Rle_dec delta 0); [lra | reflexivity].
Qed.


Lemma totalScore_clamp (m : R) (ps : list Player.t) :
  totalScore (map (clampPlayer m) ps) = totalScore ps.
Proof.
  unfold totalScore; rewrite map_map; f_equal.
Qed.

(** The same facts for one frame of the game loop. *)
Lemma frame_spec (m : R) (s : Simulation) (t : Tick) :
  let s' := next (frameOf step m s t) in
  let cs := claimsOfRun speed pickupRadius facing sameTickVisible m s [t] in
  Forall2 foodLe (foodItems s) (foodItems s') /\
  claimsSound (foodItems s) (foodItems s') cs /\
  totalScore (players s') = (totalScore (players s) + length cs)%nat.
Proof.
  cbv zeta; unfold frameOf, useFrame, claimsOfRun; rewrite app_nil_r.
  destruct (_ || _).
  - simpl; repeat split; try constructor; auto using Forall2_foodLe_refl.
  - destruct (_ && _).
    + destruct (updateBuffetPlayers_spec (players s) (foodItems s)
                  (tick_delta t)) as [L [C [S _]]].
      simpl; rewrite totalScore_clamp; repeat split; try assumption;
        apply C.
    + simpl; repeat split; try constructor; auto using Forall2_foodLe_refl.
Qed.

Lemma claimsOfRun_cons (m : R) (s : Simulation) (t : Tick) (ts : list Tick) :
  claimsOfRun speed pickupRadius facing sameTickVisible m s (t :: ts)
  = claimsOfRun speed pickupRadius facing sameTickVisible m s [t]
    ++ claimsOfRun speed pickupRadius facing sameTickVisible m
         (next (frameOf step m s t)) ts.
Proof. simpl; now rewrite app_nil_r. Qed.

Lemma frames_spec (m : R) (ts : list Tick) :
  forall s,
    let s' := frames step m s ts in
    let cs := claimsOfRun speed pickupRadius facing sameTickVisible m s ts in
    Forall2 foodLe (foodItems s) (foodItems s') /\
    claimsSound (foodItems s) (foodItems s') cs /\
    totalScore (players s') = (totalScore (players s) + length cs)%nat.
Proof.
  induction ts as [| t ts IH]; intros s; cbv zeta.
  - simpl; repeat split; try constructor; auto using Forall2_foodLe_refl.
  - rewrite claimsOfRun_cons.
    destruct (frame_spec m s t) as [L1 [C1 S1]].
    destruct (IH (next (frameOf step m s t))) as [L2 [C2 S2]].
    change (frames step m s (t :: ts))
      with (frames step m (next (frameOf step m s t)) ts).
    repeat split.
    + eapply Forall2_foodLe_trans; eassumption.
    + apply (proj1 (claimsSound_app _ _ _ _ _ L1 L2 C1 C2)).
    + apply (proj2 (claimsSound_app _ _ _ _ _ L1 L2 C1 C2)).
    + rewrite S2, S1, length_app; lia.
Qed.
End UpdateStep.

(** ** The update step: a player within reach of its target *)

Lemma distance_along_x (a b : Vector3.t) :
  Vector3.z a = Vector3.z b -> Vector3.x a <= Vector3.x b ->
  distance a b = Vector3.x b - Vector3.x a.
Proof.
  intros Hz Hx; unfold distance; rewrite Hz.
  replace ((Vector3.x b - Vector3.x a) * (Vector3.x b - Vector3.x a)
           + (Vector3.z b - Vector3.z b) * (Vector3.z b - Vector3.z b))
    with ((Vector3.x b - Vector3.x a) * (Vector3.x b - Vector3.x a)) by ring.
  apply sqrt_square; lra.
Qed.

Section WithinReach.
Variables (speed pickupRadius : R).
Variable facing : R -> R -> Quaternion.t.
Variable sameTickVisible : bool.

(** A player due west of its target moves east by [speed * delta]. *)
Lemma moveToward_along_x (p : Player.t) (t : FoodItem.t) (delta : R) :
  Vector3.z (Player.position p) = Vector3.z (FoodItem.position t) ->
  Vector3.x (Player.position p) < Vector3.x (FoodItem.position t) ->
  horizontal (moveToward speed facing p t delta)
  = (Vector3.x (Player.position p) + speed * delta,
     Vector3.z (Player.position p)).
Proof.
  intros Hz Hx; unfold horizontal, moveToward.
  cbn [Player.position Vector3.x Vector3.z].
  rewrite (distance_along_x _ _ Hz) by lra.
  rewrite Hz; f_equal; field; lra.
Qed.

Lemma updatePlayer_within_reach (snapshot live : list FoodItem.t)
  (p : Player.t) (t : FoodItem.t) (delta : R) :
  target (Player.position p) (if sameTickVisible then live else snapshot)
  = Some t ->
  Vector3.z (Player.position p) = Vector3.z (FoodItem.position t) ->
  Vector3.x (Player.position p) < Vector3.x (FoodItem.position t) ->
  Vector3.x (Player.position p) + speed * delta
  <= Vector3.x (FoodItem.position t) ->
  Vector3.x (FoodItem.position t)
  - (Vector3.x (Player.position p) + speed * delta) < pickupRadius ->
  unclaimed live (FoodItem.id t) = true ->
  updatePlayer speed pickupRadius facing sameTickVisible snapshot live p delta
  = (addScore (jumpArc (moveToward speed facing p t delta) delta),
     claim live (FoodItem.id t), [(Player.id p, FoodItem.id t)]).
Proof.
  intros Ht Hz Hx Hstep Hr Hu; unfold updatePlayer; rewrite Ht, Hu.
  pose proof (jumpArc_horizontal (moveToward speed facing p t delta) delta)
    as Hj.
  rewrite (moveToward_along_x p t delta Hz Hx) in Hj.
  unfold horizontal in Hj; injection Hj as Hjx Hjz.
  rewrite distance_along_x by (rewrite ?Hjx, ?Hjz; assumption).
  rewrite Hjx.
  destruct (Rlt_dec _ pickupRadius); [reflexivity | contradiction].
Qed.
End WithinReach.

(** ** Degenerate ticks *)





(** ** Single claim *)

Lemma frames_app (update : Update) (m : R) (s : Simulation)
  (ts1 ts2 : list Tick) :
  frames update m s (ts1 ++ ts2) = frames update m (frames update m s ts1) ts2.
Proof. unfold frames; apply fold_left_app. Qed.

(** C8: along any run of the game loop over the update step, a food item's
    consumed flag never goes back from true to false (so it goes from false
    to true at most once); no food id is claimed twice, so none is credited
    to two players; every claimed id could be claimed when the run began and
    cannot be when it ends; and the scores rise by exactly one for each
    claim. *)
Theorem consumption_is_single_claim :
  forall (speed pickupRadius : R) (facing : R -> R -> Quaternion.t)
         (sameTickVisible : bool) (mapSize : R) (s : Simulation)
         (ts1 ts2 : list Tick),
    let step := updateBuffetPlayers speed pickupRadius facing sameTickVisible in
    let s1 := frames step mapSize s ts1 in
    let s2 := frames step mapSize s (ts1 ++ ts2) in
    let cs := claimsOfRun speed pickupRadius facing sameTickVisible mapSize s
                (ts1 ++ ts2) in
    Forall2 foodLe (foodItems s1) (foodItems s2) /\
    NoDup (map snd cs) /\
    Forall (fun i => unclaimed (foodItems s) i = true /\
                     unclaimed (foodItems s2) i = false) (map snd cs) /\
    totalScore (players s2) = (totalScore (players s) + length cs)%nat.
Proof.
  intros speed pickupRadius facing sameTickVisible mapSize s ts1 ts2.
  cbv zeta.
  destruct (frames_spec speed pickupRadius facing sameTickVisible mapSize
              (ts1 ++ ts2) s) as [_ [[N F] S]].
  repeat split; try assumption.
  rewrite frames_app.
  apply (frames_spec speed pickupRadius facing sameTickVisible mapSize ts2).
Qed.

(** ** Determinism *)

Lemma NoDup_map_injective {A B : Type} (f : A -> B) (l : list A) (a b : A) :
  NoDup (map f l) -> In a l -> In b l -> f a = f b -> a = b.
Proof.
  induction l as [| x l IH]; simpl; [contradiction |].
  intros Hnd Ha Hb Hf; inversion Hnd as [| ? ? Hnot Hnd']; subst.
  destruct Ha as [<- | Ha]; destruct Hb as [<- | Hb]; auto.
  - exfalso; apply Hnot; rewrite Hf; now apply in_map.
  - exfalso; apply Hnot; rewrite <- Hf; now apply in_map.
Qed.

(** With distinct ids the targeting rule leaves no choice. *)
Lemma nearest_unique (p : Vector3.t) (fs : list FoodItem.t)
  (t1 t2 : FoodItem.t) :
  NoDup (map FoodItem.id fs) ->
  nearestUnconsumed p fs t1 -> nearestUnconsumed p fs t2 -> t1 = t2.
Proof.
  intros Hnd [In1 [C1 M1]] [In2 [C2 M2]].
  destruct (M1 t2 In2 C2) as [D12 I12].
  destruct (M2 t1 In1 C1) as [D21 I21].
  assert (distance p (FoodItem.position t1)
          = distance p (FoodItem.position t2)) as E by lra.
  apply (NoDup_map_injective FoodItem.id fs); auto.
  specialize (I12 E); specialize (I21 (eq_sym E)); lia.
Qed.

Lemma chosen_unique (p : Vector3.t) (fs : list FoodItem.t)
  (o1 o2 : option FoodItem.t) :
  NoDup (map FoodItem.id fs) -> chosen p fs o1 -> chosen p fs o2 -> o1 = o2.
Proof.
  intros Hnd H1 H2; destruct o1 as [t1 |], o2 as [t2 |]; simpl in *.
  - f_equal; eapply nearest_unique; eassumption.
  - destruct H1 as [Hin [Hc _]]; rewrite (H2 _ Hin) in Hc; discriminate.
  - destruct H2 as [Hin [Hc _]]; rewrite (H1 _ Hin) in Hc; discriminate.
  - reflexivity.
Qed.

(** The targeting of the update step settles as the rule allows. *)
Lemma chosen_target (p : Vector3.t) (fs : list FoodItem.t) :
  chosen p fs (target p fs).
Proof.
  destruct (target p fs) as [t |] eqn:E; simpl.
  - now apply target_nearest.
  - apply target_none in E; now rewrite forallb_forall in E.
Qed.

Lemma claim_ids (fs : list FoodItem.t) (i : nat) :
  map FoodItem.id (claim fs i) = map FoodItem.id fs.
Proof.
  unfold claim; rewrite map_map; apply map_ext.
  intros f; now destruct (FoodItem.id f =? i)%nat.
Qed.

Section RulesAreDeterministic.
Variables (speed pickupRadius : R).
Variable facing : R -> R -> Quaternion.t.
Variable sameTickVisible : bool.

Let act := actOn speed pickupRadius facing.
Let passR := passRule speed pickupRadius facing sameTickVisible.
Let updateR := updateRule speed pickupRadius facing sameTickVisible.
Let step := updateBuffetPlayers speed pickupRadius facing sameTickVisible.

Lemma actOn_ids (live : list FoodItem.t) (p : Player.t) (delta : R)
  (ot : option FoodItem.t) :
  forall p' live' c,
    act live p delta ot = (p', live', c) ->
    map FoodItem.id live' = map FoodItem.id live.
Proof.
  unfold act, actOn; intros p' live' c.
  destruct ot as [t |]; [| intros H; now inversion H].
  destruct (_ && _); intros H; inversion H; subst;
    [apply claim_ids | reflexivity].
Qed.

Lemma updatePlayer_actOn (snapshot live : list FoodItem.t) (p : Player.t)
  (delta : R) :
  updatePlayer speed pickupRadius facing sameTickVisible snapshot live p delta
  = act live p delta
      (target (Player.position p)
         (if sameTickVisible then live else snapshot)).
Proof.
  unfold updatePlayer, act, actOn.
  now destruct (target _ _).
Qed.

Lemma passRule_ids (snapshot : list FoodItem.t) (delta : R) :
  forall live ps r,
    passR snapshot delta live ps r ->
    map FoodItem.id (snd (fst r)) = map FoodItem.id live.
Proof.
  intros live ps r H; induction H as [| live p rest ot p' live' c rest'
                                        live'' cs _ Hact _ IH];
    [reflexivity |].
  simpl in *; rewrite IH; eapply actOn_ids; exact Hact.
Qed.

(** With distinct food ids a pass has one outcome only. *)
Lemma passRule_functional (snapshot : list FoodItem.t) (delta : R) :
  NoDup (map FoodItem.id snapshot) ->
  forall live ps r1,
    passR snapshot delta live ps r1 ->
    map FoodItem.id live = map FoodItem.id snapshot ->
    forall r2, passR snapshot delta live ps r2 -> r1 = r2.
Proof.
  intros Hnd live ps r1 H1.
  induction H1 as [| live p rest ot p' live' c rest' live'' cs Hch Hact _ IH];
    intros Hids r2 H2; inversion H2; subst; [reflexivity |].
  assert (ot = ot0) as <-.
  { eapply chosen_unique; [| eassumption | eassumption].
    destruct sameTickVisible; [now rewrite Hids | exact Hnd]. }
  match goal with
  | H : actOn _ _ _ _ _ _ ot = _ |- _ =>
      unfold act in Hact; rewrite Hact in H; inversion H; subst
  end.
  match goal with
  | H : passRule _ _ _ _ _ _ _ _ _ |- _ =>
      apply IH in H;
      [inversion H; subst; reflexivity |]
  end.
  rewrite <- Hids; eapply actOn_ids; exact Hact.
Qed.

(** The pass of the update step is an outcome the rules allow. *)
Lemma passRule_pass (snapshot : list FoodItem.t) (delta : R)
  (ps : list Player.t) :
  forall live,
    passR snapshot delta live ps
      (pass speed pickupRadius facing sameTickVisible snapshot live ps delta).
Proof.
  induction ps as [| p ps IH]; intros live; simpl; [constructor |].
  destruct (updatePlayer _ _ _ _ _ _ _ _) as [[p' live'] c] eqn:E.
  specialize (IH live').
  destruct (pass _ _ _ _ _ _ _ _) as [[rest' live''] cs].
  rewrite updatePlayer_actOn in E.
  eapply passRule_turn; [apply chosen_target | exact E | exact IH].
Qed.

Lemma updateRule_step (ps : list Player.t) (fs : list FoodItem.t)
  (delta : R) :
  updateR ps fs delta (step ps fs delta).
Proof.
  unfold step, updateBuffetPlayers.
  destruct (Rle_dec delta 0) as [Hd | Hd]; [now constructor |].
  pose proof (passRule_pass fs delta ps fs) as H.
  destruct (pass _ _ _ _ _ _ _ _) as [[ps' fs'] cs].
  eapply updateRule_pass; [lra | exact H].
Qed.

Lemma updateRule_functional (ps : list Player.t) (fs : list FoodItem.t)
  (delta : R) (r1 r2 : UpdateResult) :
  NoDup (map FoodItem.id fs) ->
  updateR ps fs delta r1 -> updateR ps fs delta r2 -> r1 = r2.
Proof.
  intros Hnd H1 H2; inversion H1; inversion H2; subst; try lra;
    [reflexivity |].
  match goal with
  | Ha : passRule _ _ _ _ _ _ _ _ ?x, Hb : passRule _ _ _ _ _ _ _ _ ?y |- _ =>
      pose proof (passRule_functional fs delta Hnd fs ps x Ha eq_refl y Hb)
        as E; inversion E; reflexivity
  end.
Qed.

Lemma updateRule_ids (ps : list Player.t) (fs : list FoodItem.t)
  (delta : R) (r : UpdateResult) :
  updateR ps fs delta r ->
  map FoodItem.id (result_foodItems r) = map FoodItem.id fs.
Proof.
  intros H; inversion H; subst; [reflexivity |].
  match goal with
  | Ha : passRule _ _ _ _ _ _ _ _ _ |- _ =>
      apply passRule_ids in Ha; exact Ha
  end.
Qed.

Lemma useFrame_answer (update : Update) (running gameOver : bool) (m : R)
  (s : Simulation) (delta : R) :
  useFrame update running gameOver m s delta
  = useFrame (fun _ _ _ => update (players s) (foodItems s) delta)
      running gameOver m s delta.
Proof. reflexivity. Qed.

Lemma advance_functional (m : R) (s : Simulation) (t : Tick)
  (s1 s2 : Simulation) :
  NoDup (map FoodItem.id (foodItems s)) ->
  advance speed pickupRadius facing sameTickVisible m s t s1 ->
  advance speed pickupRadius facing sameTickVisible m s t s2 ->
  s1 = s2.
Proof.
  intros Hnd H1 H2; inversion H1; inversion H2; subst.
  match goal with
  | Ha : updateRule _ _ _ _ _ _ _ ?x, Hb : updateRule _ _ _ _ _ _ _ ?y |- _ =>
      now rewrite (updateRule_functional _ _ _ x y Hnd Ha Hb)
  end.
Qed.

Lemma advance_ids (m : R) (s : Simulation) (t : Tick) (s' : Simulation) :
  advance speed pickupRadius facing sameTickVisible m s t s' ->
  map FoodItem.id (foodItems s') = map FoodItem.id (foodItems s).
Proof.
  intros H; inversion H as [? ? r Hr]; subst.
  unfold useFrame.
  destruct (_ || _); [reflexivity |].
  destruct (_ && _); [| reflexivity].
  simpl; eapply updateRule_ids; exact Hr.
Qed.

Lemma advance_frameOf (m : R) (s : Simulation) (t : Tick) :
  advance speed pickupRadius facing sameTickVisible m s t
    (next (frameOf step m s t)).
Proof.
  unfold frameOf; rewrite useFrame_answer.
  constructor; apply updateRule_step.
Qed.

Lemma trajectory_trace (m : R) (ts : list Tick) :
  forall s,
    trajectory speed pickupRadius facing sameTickVisible m s ts
      (trace step m s ts).
Proof.
  induction ts as [| t ts IH]; intros s; simpl; constructor;
    [apply advance_frameOf | apply IH].
Qed.

Lemma trajectory_functional (m : R) (s : Simulation) (ts : list Tick)
  (tr1 : list Simulation) :
  trajectory speed pickupRadius facing sameTickVisible m s ts tr1 ->
  NoDup (map FoodItem.id (foodItems s)) ->
  forall tr2,
    trajectory speed pickupRadius facing sameTickVisible m s ts tr2 ->
    tr1 = tr2.
Proof.
  induction 1 as [| s t s' ts tr Hadv _ IH]; intros Hnd tr2 H2;
    inversion H2; subst; [reflexivity |].
  match goal with
  | Ha : advance _ _ _ _ _ s t ?x |- _ =>
      pose proof (advance_functional m s t s' x Hnd Hadv Ha); subst
  end.
  f_equal; apply IH; [| assumption].
  now rewrite (advance_ids m s t _ Hadv).
Qed.
End RulesAreDeterministic.

(** The rule of targeting alone does not make the step deterministic: of
    two unconsumed items with one id at one distance it allows either. *)
Lemma twins_allow_two_targets :
  chosen (Vector3.mk 0 0.5 0) twins (Some (foodAt 0 1 0 false)) /\
  chosen (Vector3.mk 0 0.5 0) twins (Some (foodAt 0 (-1) 0 false)).
Proof.
  assert (forall g, In g twins ->
            distance (Vector3.mk 0 0.5 0) (FoodItem.position g) = 1
            /\ FoodItem.id g = 0%nat) as H.
  { intros g [<- | [<- | []]]; (split; [| reflexivity]);
      unfold distance; simpl.
    - replace ((1 - 0) * (1 - 0) + (0 - 0) * (0 - 0)) with 1 by lra.
      apply sqrt_1.
    - replace ((-1 - 0) * (-1 - 0) + (0 - 0) * (0 - 0)) with 1 by lra.
      apply sqrt_1. }
  split; simpl; unfold nearestUnconsumed.
  - split; [now left | split; [reflexivity |]].
    intros g Hg _; destruct (H g Hg) as [-> ->].
    destruct (H (foodAt 0 1 0 false)) as [-> _]; [now left |].
    split; [lra | simpl; lia].
  - split; [right; now left | split; [reflexivity |]].
    intros g Hg _; destruct (H g Hg) as [-> ->].
    destruct (H (foodAt 0 (-1) 0 false)) as [-> _]; [right; now left |].
    split; [lra | simpl; lia].
Qed.

(** C9: the update step is deterministic.  The game loop is run over the
    rules of the update step (a degenerate tick changes nothing; otherwise
    each player in turn acts on a target that the targeting rule allows),
    with no choice made in advance.  From a world whose food ids are
    distinct: whatever two results the rules allow for a tick, [useFrame]
    makes one frame of them (next world, published scores and the signal
    that food is depleted); and over a sequence of ticks any execution
    visits exactly the worlds that the update step computes, so that two
    executions agree tick by tick on positions, headings, scores and
    consumed flags. *)
Theorem update_step_is_deterministic :
  forall (speed pickupRadius : R) (facing : R -> R -> Quaternion.t)
         (sameTickVisible : bool) (mapSize : R) (s : Simulation),
    NoDup (map FoodItem.id (foodItems s)) ->
    (forall (running gameOver : bool) (delta : R) (r1 r2 : UpdateResult),
        updateRule speed pickupRadius facing sameTickVisible
          (players s) (foodItems s) delta r1 ->
        updateRule speed pickupRadius facing sameTickVisible
          (players s) (foodItems s) delta r2 ->
        useFrame (fun _ _ _ => r1) running gameOver mapSize s delta
        = useFrame (fun _ _ _ => r2) running gameOver mapSize s delta) /\
    (forall (ts : list Tick) (tr : list Simulation),
        trajectory speed pickupRadius facing sameTickVisible mapSize s ts tr
        <->
        tr = trace
               (updateBuffetPlayers speed pickupRadius facing sameTickVisible)
               mapSize s ts).
Proof.
  intros speed pickupRadius facing sameTickVisible mapSize s Hnd.
  split.
  - intros running gameOver delta r1 r2 H1 H2.
    now rewrite (updateRule_functional _ _ _ _ _ _ _ r1 r2 Hnd H1 H2).
  - intros ts tr; split.
    + intros H; eapply trajectory_functional; [exact H | exact Hnd |].
      apply trajectory_trace.
    + intros ->; apply trajectory_trace.
Qed.

Lemma update_step_is_deterministic_witness :
  trajectory 2 0.5 (fun _ _ => noTurn) true MAP_SIZE withinReach
    [mkTick true false (1 / 60); mkTick true false 0]
    (trace sampleUpdate MAP_SIZE withinReach
       [mkTick true false (1 / 60); mkTick true false 0]).
Proof.
  apply (update_step_is_deterministic 2 0.5 (fun _ _ => noTurn) true
           MAP_SIZE withinReach);
    [repeat constructor; simpl; auto | reflexivity].
Defined.

(** ** A race that is played again *)

Lemma loner_position :
  Vector3.x (Player.position loner) = 6 /\
  Vector3.z (Player.position loner) = 0.
Proof.
  unfold loner, spawnPlayer, MAP_SIZE.
  cbn [Player.position Vector3.x Vector3.z].
  replace (INR 0 / IZR 1 * PI * 2) with 0 by (simpl; lra).
  rewrite cos_0, sin_0; split; lra.
Qed.

Lemma morsel_position :
  Vector3.x (FoodItem.position morsel) = 6.25 /\
  Vector3.z (FoodItem.position morsel) = 0.
Proof.
  unfold morsel, spawnFood, nearTheSpawn, MAP_SIZE.
  cbn [FoodItem.position Vector3.x Vector3.z Nat.mul Nat.add].
  split; lra.
Qed.

Lemma first_frame_of_first_race :
  useFrame sampleUpdate true false MAP_SIZE
    (useEffect 1 1 MAP_SIZE nearTheSpawn mounted) (1 / 60)
  = mkFrame (mkSimulation [winner] [FoodItem.set_consumed morsel true]
               (Some (1%Z, 1%Z, MAP_SIZE)))
            (Some [1%nat]) true.
Proof.
  rewrite useFrame_advance; try reflexivity; try discriminate.
  cbv zeta; unfold sampleUpdate.
  rewrite updateBuffetPlayers_positive by lra.
  change (players (useEffect 1 1 MAP_SIZE nearTheSpawn mounted)) with [loner].
  change (foodItems (useEffect 1 1 MAP_SIZE nearTheSpawn mounted)) with [morsel].
  cbn [pass].
  destruct loner_position as [Hlx Hlz].
  destruct morsel_position as [Hmx Hmz].
  rewrite (updatePlayer_within_reach 2 0.5 (fun _ _ => noTurn) true
             [morsel] [morsel] loner morsel (1 / 60));
    try reflexivity; rewrite ?Hlx, ?Hlz, ?Hmx, ?Hmz; lra.
Qed.

Lemma first_race_ends :
  run sampleUpdate initial firstRace = firstRaceOver.
Proof.
  unfold firstRace.
  change (run sampleUpdate initial
            [ChangePlayerCount (Int 1); ChangeFoodAmount (Int 1); ClickStart;
             RunEffect nearTheSpawn; AnimationFrame (1 / 60)])
    with (render
            (animationFrame sampleUpdate (1 / 60)
               (mkRaceSimulation 1 1 [0%nat] true false 60
                  (Some (useEffect 1 1 MAP_SIZE nearTheSpawn mounted))))).
  unfold animationFrame.
  cbn [simulation isSimulationRunning isGameOver].
  rewrite first_frame_of_first_race; reflexivity.
Qed.

Lemma second_frame_of_second_race :
  useFrame sampleUpdate true false MAP_SIZE
    (mkSimulation [winner] [FoodItem.set_consumed morsel true]
       (Some (1%Z, 1%Z, MAP_SIZE))) (1 / 60)
  = mkFrame (mkSimulation [clampPlayer MAP_SIZE winner]
               [FoodItem.set_consumed morsel true]
               (Some (1%Z, 1%Z, MAP_SIZE)))
            (Some [1%nat]) true.
Proof.
  rewrite useFrame_advance; try reflexivity; try discriminate.
  cbv zeta; unfold sampleUpdate.
  rewrite updateBuffetPlayers_positive by lra.
  reflexivity.
Qed.

Lemma play_again_after_first_race :
  run sampleUpdate firstRaceOver [ClickPlayAgain; RunEffect zeros]
  = mkRaceSimulation 1 1 [0%nat] true false 60 (simulation firstRaceOver).
Proof.
  change (run sampleUpdate firstRaceOver [ClickPlayAgain; RunEffect zeros])
    with (runEffect zeros
            (mkRaceSimulation 1 1 [0%nat] true false 60
               (simulation firstRaceOver))).
  unfold runEffect, firstRaceOver.
  cbn [simulation deps playerCount foodAmount].
  now rewrite depsChanged_same.
Qed.

(** C2 fails on the code.  One player, one food item; the first race ends
    at its first frame with the item consumed and the player on one point.
    Play Again resets the score overlay and the timer, but the [Simulation]
    element stays and its effect does not run again: the second race starts
    on the old world, player still on one point and food still consumed,
    where a fresh world has score 0 and unconsumed food; its first frame
    publishes the old score and ends the race at once. *)
Theorem play_again_resumes_old_world :
  let a1 := run sampleUpdate initial firstRace in
  let a2 := run sampleUpdate a1 [ClickPlayAgain; RunEffect zeros] in
  let a3 := run sampleUpdate a1 secondRace in
  (isGameOver a1 = true /\
   map Player.score (playersOf a1) = [1%nat] /\
   map FoodItem.consumed (foodItemsOf a1) = [true]) /\
  (isSimulationRunning a2 = true /\ scores a2 = [0%nat] /\
   simulation a2 = simulation a1 /\
   map Player.score (playersOf a2) = [1%nat] /\
   map FoodItem.consumed (foodItemsOf a2) = [true]) /\
  (map Player.score (newPlayers (playerCount a1) MAP_SIZE) = [0%nat] /\
   map FoodItem.consumed (newFoodItems (foodAmount a1) MAP_SIZE zeros)
   = [false]) /\
  (scores a3 = [1%nat] /\ isGameOver a3 = true /\
   isSimulationRunning a3 = false).
Proof.
  cbv zeta; rewrite first_race_ends.
  split; [repeat split |].
  rewrite play_again_after_first_race.
  split; [repeat split |].
  split; [repeat split |].
  change (run sampleUpdate firstRaceOver secondRace)
    with (dispatch sampleUpdate
            (run sampleUpdate firstRaceOver [ClickPlayAgain; RunEffect zeros])
            (AnimationFrame (1 / 60))).
  rewrite play_again_after_first_race.
  cbn [dispatch]; unfold animationFrame, firstRaceOver.
  cbn [simulation isSimulationRunning isGameOver].
  rewrite second_frame_of_second_race.
  repeat split.
Qed.

(** * Further properties of the code *)

(** ** The timer and the two flags *)

Section Timer.
Variable update : Update.

Lemma render_fields (a : RaceSimulation) :
  isSimulationRunning (render a) = isSimulationRunning a /\
  isGameOver (render a) = isGameOver a /\
  timeLeft (render a) = timeLeft a /\
  scores (render a) = scores a.
Proof.
  unfold render; destruct (canvasVisible a); [| easy].
  now destruct (simulation a).
Qed.

Lemma render_timerInvariant (a : RaceSimulation) :
  timerInvariant a -> timerInvariant (render a).
Proof.
  unfold timerInvariant.
  destruct (render_fields a) as [-> [-> [-> _]]]; auto.
Qed.

Lemma animationFrame_fields (delta : R) (a : RaceSimulation) :
  timeLeft (animationFrame update delta a) = timeLeft a /\
  ((isSimulationRunning (animationFrame update delta a)
    = isSimulationRunning a /\
    isGameOver (animationFrame update delta a) = isGameOver a) \/
   (isSimulationRunning (animationFrame update delta a) = false /\
    isGameOver (animationFrame update delta a) = true)).
Proof.
  unfold animationFrame; destruct (simulation a); [| auto].
  destruct (useFrame _ _ _ _ _ _) as [n pub dep]; simpl.
  destruct dep, pub; simpl; auto.
Qed.

Lemma dispatch_timerInvariant (a : RaceSimulation) (e : Event) :
  timerInvariant a -> timerInvariant (dispatch update a e).
Proof.
  intros Ha; destruct e; simpl.
  - destruct (barVisible a); [apply render_timerInvariant |]; exact Ha.
  - destruct (barVisible a); [apply render_timerInvariant |]; exact Ha.
  - destruct (barVisible a); [apply render_timerInvariant |]; [| exact Ha].
    unfold timerInvariant; simpl; unfold gameDuration; repeat split; lia.
  - destruct (isGameOver a); [apply render_timerInvariant |]; [| exact Ha].
    unfold timerInvariant; simpl; unfold gameDuration; repeat split; lia.
  - destruct (_ && _) eqn:E; [apply render_timerInvariant |]; [| exact Ha].
    apply andb_prop in E as [Er _].
    destruct Ha as [Hx [Ht Hr]]; specialize (Hr Er).
    unfold timerInvariant, timerTick, gameDuration in *.
    destruct (Z.leb_spec (timeLeft a) 1); simpl.
    + repeat split; try lia; discriminate.
    + repeat split; try assumption; lia.
  - unfold runEffect; destruct (simulation a); [| exact Ha].
    destruct (depsChanged _ _ _ _); exact Ha.
  - apply render_timerInvariant.
    destruct Ha as [Hx [Ht Hr]]; unfold timerInvariant.
    destruct (animationFrame_fields delta a) as [Et [[Er Eo] | [Er Eo]]];
      rewrite Et, Er, Eo.
    + auto.
    + split; [reflexivity | split; [exact Ht | discriminate]].
Qed.

Lemma run_timerInvariant (es : list Event) (a : RaceSimulation) :
  timerInvariant a -> timerInvariant (run update a es).
Proof.
  revert a; induction es as [| e es IH]; intros a Ha; [exact Ha |].
  apply IH, dispatch_timerInvariant, Ha.
Qed.

Lemma initial_timerInvariant : timerInvariant initial.
Proof.
  unfold timerInvariant, initial, gameDuration; simpl.
  repeat split; try lia; discriminate.
Qed.
End Timer.

(** X1: whatever happens to the page, the race is never both running and over:
    every handler that sets one of the two flags clears the other. *)
Theorem never_running_and_over :
  forall (update : Update) (es : list Event),
    let a := run update initial es in
    isSimulationRunning a = true -> isGameOver a = false.
Proof.
  intros update es a Hr.
  destruct (run_timerInvariant update es initial initial_timerInvariant)
    as [Hx _].
  fold a in Hx; rewrite Hr in Hx; exact Hx.
Qed.

Lemma never_running_and_over_witness :
  isGameOver (run eatAll initial [ClickStart; RunEffect zeros; TimerTick])
  = false.
Proof.
  apply (never_running_and_over eatAll
           [ClickStart; RunEffect zeros; TimerTick]).
  reflexivity.
Defined.

(** X2: whatever happens to the page, the time left stays between 0 and the 60
    seconds of a game, is at least 1 while the race runs, and reaches 0 only
    on a page where the race is over. *)
Theorem time_left_in_range :
  forall (update : Update) (es : list Event),
    let a := run update initial es in
    (0 <= timeLeft a <= 60)%Z /\
    (if isSimulationRunning a then (1 <= timeLeft a)%Z else True) /\
    (if (timeLeft a =? 0)%Z then isGameOver a = true else True).
Proof.
  intros update es; cbv zeta.
  assert (forall a, timerInvariant a ->
            (timeLeft a = 0%Z -> isGameOver a = true) ->
            forall e, let a' := dispatch update a e in
                      timeLeft a' = 0%Z -> isGameOver a' = true) as Hstep.
  { intros a Ha H0 e; cbv zeta.
    destruct Ha as [Hx [Ht Hr]].
    destruct e; simpl.
    - destruct (barVisible a); [| exact H0].
      destruct (render_fields (setPlayerCount (onChange_playerCount v) a))
        as [_ [-> [-> _]]]; exact H0.
    - destruct (barVisible a); [| exact H0].
      destruct (render_fields (setFoodAmount (onChange_foodAmount v) a))
        as [_ [-> [-> _]]]; exact H0.
    - destruct (barVisible a); [| exact H0].
      destruct (render_fields (startSimulation a)) as [_ [-> [-> _]]].
      simpl; unfold gameDuration; lia.
    - destruct (isGameOver a) eqn:Eo; [| rewrite Eo; exact H0].
      destruct (render_fields (handlePlayAgain a)) as [_ [-> [-> _]]].
      simpl; unfold gameDuration; lia.
    - destruct (isSimulationRunning a && negb (isGameOver a)) eqn:E;
        [| exact H0].
      destruct (render_fields (timerTick a)) as [_ [-> [-> _]]].
      apply andb_prop in E as [Er _]; specialize (Hr Er).
      unfold timerTick; destruct (Z.leb_spec (timeLeft a) 1); simpl;
        [reflexivity | lia].
    - unfold runEffect; destruct (simulation a); [| exact H0].
      destruct (depsChanged _ _ _ _); exact H0.
    - destruct (render_fields (animationFrame update delta a))
        as [_ [-> [-> _]]].
      destruct (animationFrame_fields update delta a)
        as [-> [[_ ->] | [_ ->]]]; [exact H0 | reflexivity]. }
  assert (forall es a, timerInvariant a ->
            (timeLeft a = 0%Z -> isGameOver a = true) ->
            timeLeft (run update a es) = 0%Z ->
            isGameOver (run update a es) = true) as Hrun.
  { induction es0 as [| e es0 IH]; intros a Ha H0; [exact H0 |].
    apply IH; [now apply dispatch_timerInvariant | now apply Hstep]. }
  destruct (run_timerInvariant update es initial initial_timerInvariant)
    as [Hx [Ht Hr]].
  unfold gameDuration in Ht.
  split; [exact Ht |]; split.
  - destruct (isSimulationRunning _); [now apply Hr | exact I].
  - destruct (Z.eqb_spec (timeLeft (run update initial es)) 0); [| exact I].
    apply Hrun; [apply initial_timerInvariant | | assumption].
    simpl; discriminate.
Qed.

(** ** After the first start *)

Section Started.
Variable update : Update.

Lemma render_canvas (a : RaceSimulation) :
  canvasVisible (render a) = canvasVisible a /\
  playerCount (render a) = playerCount a /\
  foodAmount (render a) = foodAmount a.
Proof.
  unfold render, canvasVisible.
  destruct (isSimulationRunning a || isGameOver a) eqn:E; simpl;
    [| now rewrite E].
  destruct (simulation a); simpl; now rewrite E.
Qed.

Lemma barVisible_canvasVisible (a : RaceSimulation) :
  barVisible a = negb (canvasVisible a).
Proof.
  unfold barVisible, canvasVisible.
  now destruct (isSimulationRunning a), (isGameOver a).
Qed.

Lemma dispatch_started (a : RaceSimulation) (e : Event) :
  canvasVisible a = true ->
  canvasVisible (dispatch update a e) = true /\
  playerCount (dispatch update a e) = playerCount a /\
  foodAmount (dispatch update a e) = foodAmount a.
Proof.
  intros Hc.
  assert (barVisible a = false) as Hb
    by (now rewrite barVisible_canvasVisible, Hc).
  destruct e; simpl; rewrite ?Hb; auto.
  - destruct (isGameOver a); [| auto].
    destruct (render_canvas (handlePlayAgain a)) as [-> [-> ->]]; auto.
  - destruct (isSimulationRunning a && negb (isGameOver a)) eqn:E; [| auto].
    destruct (render_canvas (timerTick a)) as [-> [-> ->]].
    unfold timerTick; destruct (timeLeft a <=? 1)%Z; simpl; auto.
  - unfold runEffect; destruct (simulation a); [| auto].
    destruct (depsChanged _ _ _ _); auto.
  - destruct (render_canvas (animationFrame update delta a)) as [-> [-> ->]].
    destruct (animationFrame_counts update delta a) as [-> ->].
    unfold animationFrame; destruct (simulation a); [| auto].
    destruct (useFrame _ _ _ _ _ _) as [n pub dep]; simpl.
    unfold canvasVisible in *; destruct dep, pub; simpl; auto.
Qed.
End Started.

(** X3: once a race has been started the page never shows the parameters bar
    again: through game over and Play Again the canvas stays, and the
    player count and the food count can no longer be changed, whatever is
    typed or clicked. *)
Theorem counts_frozen_after_start :
  forall (update : Update) (a : RaceSimulation) (es : list Event),
    canvasVisible a = true ->
    let a' := run update a es in
    barVisible a' = false /\
    playerCount a' = playerCount a /\ foodAmount a' = foodAmount a.
Proof.
  intros update a es; revert a.
  induction es as [| e es IH]; intros a Hc; cbv zeta.
  - change (run update a []) with a.
    rewrite barVisible_canvasVisible, Hc; auto.
  - destruct (dispatch_started update a e Hc) as [Hc' [Hp Hf]].
    destruct (IH _ Hc') as [Hb [Hp' Hf']].
    change (run update a (e :: es)) with (run update (dispatch update a e) es).
    repeat split; congruence.
Qed.

Lemma counts_frozen_after_start_witness :
  let a := run eatAll initial [ClickStart; RunEffect zeros] in
  let a' := run eatAll a
              [AnimationFrame (1 / 60); ChangePlayerCount (Int 2);
               ClickPlayAgain; ChangeFoodAmount (Int 7)] in
  barVisible a' = false /\ playerCount a' = 4%Z /\ foodAmount a' = 100%Z.
Proof.
  exact (counts_frozen_after_start eatAll
           (run eatAll initial [ClickStart; RunEffect zeros])
           [AnimationFrame (1 / 60); ChangePlayerCount (Int 2);
            ClickPlayAgain; ChangeFoodAmount (Int 7)] eq_refl).
Defined.

(** ** The countdown *)

Lemma timerTick_step (update : Update) (a : RaceSimulation) :
  isSimulationRunning a = true -> isGameOver a = false ->
  let a' := dispatch update a TimerTick in
  if (timeLeft a <=? 1)%Z
  then isSimulationRunning a' = false /\ isGameOver a' = true /\
       timeLeft a' = 0%Z
  else isSimulationRunning a' = true /\ isGameOver a' = false /\
       timeLeft a' = (timeLeft a - 1)%Z.
Proof.
  intros Hr Ho; cbv zeta; simpl; rewrite Hr, Ho; simpl.
  destruct (render_fields (timerTick a)) as [-> [-> [-> _]]].
  unfold timerTick; destruct (timeLeft a <=? 1)%Z; simpl; auto.
Qed.

Lemma timerTick_stopped (update : Update) (a : RaceSimulation) :
  isSimulationRunning a = false -> dispatch update a TimerTick = a.
Proof. intros Hr; simpl; now rewrite Hr. Qed.

(** X4: the countdown of a running race with [t] seconds left: fewer than [t]
    firings of the timer leave it running with one second less for each,
    and the [t]-th firing ends it with no time left; later firings change
    nothing. *)
Theorem countdown_ends_race :
  forall (update : Update) (n : nat) (a : RaceSimulation),
    isSimulationRunning a = true -> isGameOver a = false ->
    (1 <= timeLeft a)%Z ->
    let a' := run update a (repeat TimerTick n) in
    if (Z.of_nat n <? timeLeft a)%Z
    then isSimulationRunning a' = true /\ isGameOver a' = false /\
         timeLeft a' = (timeLeft a - Z.of_nat n)%Z
    else isSimulationRunning a' = false /\ isGameOver a' = true /\
         timeLeft a' = 0%Z.
Proof.
  intros update n; induction n as [| n IH]; intros a Hr Ho Ht; cbv zeta.
  - destruct (Z.ltb_spec (Z.of_nat 0) (timeLeft a)); [| lia].
    simpl; repeat split; try assumption; lia.
  - change (run update a (repeat TimerTick (S n)))
      with (run update (dispatch update a TimerTick) (repeat TimerTick n)).
    pose proof (timerTick_step update a Hr Ho) as Hs; cbv zeta in Hs.
    destruct (Z.leb_spec (timeLeft a) 1).
    + destruct Hs as [Hr' [Ho' Ht']].
      assert (forall k b, isSimulationRunning b = false ->
                run update b (repeat TimerTick k) = b) as Hstop.
      { induction k as [| k IHk]; intros b Hb; [reflexivity |].
        change (run update b (repeat TimerTick (S k)))
          with (run update (dispatch update b TimerTick)
                  (repeat TimerTick k)).
        rewrite timerTick_stopped by assumption; now apply IHk. }
      rewrite Hstop by assumption.
      destruct (Z.ltb_spec (Z.of_nat (S n)) (timeLeft a)); [lia | auto].
    + destruct Hs as [Hr' [Ho' Ht']].
      specialize (IH _ Hr' Ho' ltac:(lia)); cbv zeta in IH.
      rewrite Ht' in IH.
      destruct (Z.ltb_spec (Z.of_nat n) (timeLeft a - 1));
        destruct (Z.ltb_spec (Z.of_nat (S n)) (timeLeft a)); try lia.
      * destruct IH as [? [? ->]]; repeat split; try assumption; lia.
      * exact IH.
Qed.

Lemma countdown_ends_race_witness :
  let a := run eatAll initial [ClickStart] in
  let a' := run eatAll a (repeat TimerTick 60) in
  isSimulationRunning a' = false /\ isGameOver a' = true /\
  timeLeft a' = 0%Z.
Proof.
  exact (countdown_ends_race eatAll 60 (run eatAll initial [ClickStart])
           eq_refl eq_refl ltac:(simpl; unfold gameDuration; lia)).
Defined.

(** ** The world between frames *)

Section BetweenFrames.
Variable update : Update.

Lemma dispatch_keeps_world (a : RaceSimulation) (e : Event) (s : Simulation) :
  elementInvariant a ->
  simulation a = Some s -> deps s <> None ->
  isAnimationFrame e = false ->
  simulation (dispatch update a e) = Some s.
Proof.
  intros Hinv Hs Hd He.
  unfold elementInvariant in Hinv; rewrite Hs in Hinv.
  destruct Hinv as [Hc [Hn | Hdeps]]; [contradiction |].
  assert (barVisible a = false) as Hb
    by (now rewrite barVisible_canvasVisible, Hc).
  destruct e; simpl; rewrite ?Hb; try assumption; try discriminate.
  - destruct (isGameOver a); [| assumption].
    unfold render, canvasVisible; simpl; now rewrite Hs.
  - destruct (isSimulationRunning a && negb (isGameOver a)) eqn:E;
      [| assumption].
    apply andb_prop in E as [Er _].
    unfold render, canvasVisible, timerTick.
    destruct (timeLeft a <=? 1)%Z; simpl; rewrite ?Er; simpl; now rewrite Hs.
  - unfold runEffect; rewrite Hs, Hdeps, depsChanged_same; assumption.
Qed.
End BetweenFrames.

(** X5: once the world of a page has been built, nothing but an animation frame
    ever changes it: typing, Start, Play Again, the timer (also when it runs
    out) and the effect leave the players and the food items as they
    were. *)
Theorem world_changes_only_in_frames :
  forall (update : Update) (es0 es : list Event) (s : Simulation),
    let a := run update initial es0 in
    simulation a = Some s -> deps s <> None ->
    forallb (fun e => negb (isAnimationFrame e)) es = true ->
    simulation (run update a es) = Some s.
Proof.
  intros update es0 es s a Hs Hd.
  assert (elementInvariant a) as Hinv
    by (apply run_element; reflexivity).
  clearbody a; revert a Hs Hinv.
  induction es as [| e es IH]; intros a Hs Hinv Hes; [exact Hs |].
  simpl in Hes; apply andb_prop in Hes as [He Hes].
  apply negb_true_iff in He.
  change (run update a (e :: es)) with (run update (dispatch update a e) es).
  apply IH; [| apply dispatch_element; exact Hinv | exact Hes].
  now apply dispatch_keeps_world.
Qed.

Lemma world_changes_only_in_frames_witness :
  let a := run eatAll initial [ClickStart; RunEffect zeros] in
  simulation
    (run eatAll a
       [TimerTick; ChangePlayerCount (Int 2); RunEffect nearTheSpawn;
        ClickPlayAgain])
  = Some (useEffect 4 100 MAP_SIZE zeros mounted).
Proof.
  apply (world_changes_only_in_frames eatAll [ClickStart; RunEffect zeros]);
    [reflexivity | discriminate | reflexivity].
Defined.

(** ** A race that is over *)

Lemma sameButScores_refl (a : RaceSimulation) : sameButScores a a.
Proof. unfold sameButScores; auto 10. Qed.

Lemma sameButScores_trans (a b c : RaceSimulation) :
  sameButScores a b -> sameButScores b c -> sameButScores a c.
Proof.
  unfold sameButScores.
  intros [? [? [? [? [? ?]]]]] [? [? [? [? [? ?]]]]].
  repeat split; congruence.
Qed.

Section Over.
Variable update : Update.

Lemma useFrame_over (running : bool) (m : R) (s : Simulation) (delta : R) :
  next (useFrame update running true m s delta) = s /\
  foodDepleted (useFrame update running true m s delta) = false.
Proof.
  unfold useFrame; destruct (_ || _); [auto |].
  rewrite andb_false_r; auto.
Qed.

Lemma dispatch_over (a : RaceSimulation) (e : Event) (s : Simulation) :
  isGameOver a = true -> isSimulationRunning a = false ->
  simulation a = Some s ->
  deps s = Some (playerCount a, foodAmount a, MAP_SIZE) ->
  isClickPlayAgain e = false ->
  sameButScores a (dispatch update a e).
Proof.
  intros Ho Hr Hs Hd He.
  assert (barVisible a = false) as Hb
    by (unfold barVisible; now rewrite Ho, andb_false_r).
  destruct e; simpl; rewrite ?Hb, ?Hr; simpl;
    try apply sameButScores_refl; try discriminate.
  - unfold runEffect; rewrite Hs, Hd, depsChanged_same.
    apply sameButScores_refl.
  - unfold animationFrame; rewrite Hs, Ho.
    match goal with |- context [useFrame update ?r true MAP_SIZE s delta] =>
      destruct (useFrame_over r MAP_SIZE s delta) as [Hn Hf];
      destruct (useFrame update r true MAP_SIZE s delta) as [n pub dep]
    end.
    simpl in Hn, Hf; subst n dep.
    unfold render, canvasVisible.
    destruct pub; simpl; rewrite Ho, orb_true_r; simpl;
      unfold sameButScores; simpl; rewrite ?Hs; auto 10.
Qed.
End Over.

(** X6: while a race is over, nothing but Play Again changes the page beyond
    its score overlay: frames, timer firings, typing and Start leave the
    world, the two flags, the time left and the counts as they are. *)
Theorem game_over_freezes_page :
  forall (update : Update) (es0 es : list Event) (s : Simulation),
    let a := run update initial es0 in
    isGameOver a = true ->
    simulation a = Some s -> deps s <> None ->
    forallb (fun e => negb (isClickPlayAgain e)) es = true ->
    sameButScores a (run update a es).
Proof.
  intros update es0 es s a Ho Hs Hn.
  assert (isSimulationRunning a = false) as Hr.
  { destruct (run_timerInvariant update es0 initial initial_timerInvariant)
      as [Hx _].
    fold a in Hx; rewrite Ho, andb_true_r in Hx; exact Hx. }
  assert (deps s = Some (playerCount a, foodAmount a, MAP_SIZE)) as Hd.
  { pose proof (run_element update es0 initial eq_refl) as Hinv.
    fold a in Hinv; unfold elementInvariant in Hinv; rewrite Hs in Hinv.
    destruct Hinv as [_ [H | H]]; [contradiction | exact H]. }
  clear Hn; clearbody a; revert a Ho Hs Hr Hd.
  induction es as [| e es IH]; intros a Ho Hs Hr Hd Hes;
    [apply sameButScores_refl |].
  simpl in Hes; apply andb_prop in Hes as [He Hes].
  apply negb_true_iff in He.
  pose proof (dispatch_over update a e s Ho Hr Hs Hd He) as H1.
  change (run update a (e :: es)) with (run update (dispatch update a e) es).
  apply (sameButScores_trans _ _ _ H1).
  destruct H1 as [Hp [Hf [Er [Eo [_ Es]]]]].
  apply IH; try congruence.
Qed.

Lemma game_over_freezes_page_witness :
  let a := run eatAll initial [ClickStart; RunEffect zeros;
                               AnimationFrame (1 / 60)] in
  sameButScores a
    (run eatAll a
       [AnimationFrame (1 / 60); TimerTick; ClickStart; RunEffect zeros;
        ChangeFoodAmount (Int 3)]).
Proof.
  apply (game_over_freezes_page eatAll
           [ClickStart; RunEffect zeros; AnimationFrame (1 / 60)]
           [AnimationFrame (1 / 60); TimerTick; ClickStart; RunEffect zeros;
            ChangeFoodAmount (Int 3)]
           (mkSimulation
              (map (clampPlayer MAP_SIZE) (newPlayers 4 MAP_SIZE))
              (map (fun f => FoodItem.set_consumed f true)
                 (newFoodItems 100 MAP_SIZE zeros))
              (Some (4%Z, 100%Z, MAP_SIZE))));
    [reflexivity | reflexivity | discriminate | reflexivity].
Defined.

(** ** What a frame does to the page *)

(** X7: after an animation frame on a page that shows the canvas and whose
    world has players and food, the score overlay lists exactly the scores
    of the players of the world, in their order. *)
Theorem overlay_shows_world_scores :
  forall (update : Update) (a : RaceSimulation) (s : Simulation) (delta : R),
    canvasVisible a = true ->
    simulation a = Some s -> players s <> [] -> foodItems s <> [] ->
    let a' := dispatch update a (AnimationFrame delta) in
    scores a' = map Player.score (playersOf a').
Proof.
  intros update a s delta Hc Hs Hp Hf; cbv zeta; simpl.
  unfold animationFrame; rewrite Hs.
  unfold useFrame.
  rewrite (nonempty_length _ Hp), (nonempty_length _ Hf); simpl.
  unfold canvasVisible in Hc.
  destruct (isSimulationRunning a && negb (isGameOver a)); simpl.
  - destruct (forallb FoodItem.consumed _); unfold render, canvasVisible;
      simpl; rewrite ?Hc, ?orb_true_r; reflexivity.
  - unfold render, canvasVisible; simpl; rewrite Hc; reflexivity.
Qed.

Lemma overlay_shows_world_scores_witness :
  let a := run eatAll initial [ClickStart; RunEffect zeros] in
  let a' := dispatch eatAll a (AnimationFrame (1 / 60)) in
  scores a' = map Player.score (playersOf a').
Proof.
  apply (overlay_shows_world_scores eatAll
           (run eatAll initial [ClickStart; RunEffect zeros])
           (useEffect 4 100 MAP_SIZE zeros mounted));
    [reflexivity | reflexivity | discriminate | discriminate].
Defined.

(** X8: in a running race a frame ends the race exactly when the update hands
    back food that is all consumed: the page is then over and no longer
    running, with the time left untouched, and the timer has stopped (a
    firing changes nothing); otherwise the race goes on. *)
Theorem food_depletion_ends_race :
  forall (update : Update) (a : RaceSimulation) (s : Simulation) (delta : R),
    isSimulationRunning a = true -> isGameOver a = false ->
    simulation a = Some s -> players s <> [] -> foodItems s <> [] ->
    let r := update (players s) (foodItems s) delta in
    let eaten := forallb FoodItem.consumed (result_foodItems r) in
    let a' := dispatch update a (AnimationFrame delta) in
    isGameOver a' = eaten /\ isSimulationRunning a' = negb eaten /\
    timeLeft a' = timeLeft a /\ foodItemsOf a' = result_foodItems r /\
    (if eaten then dispatch update a' TimerTick = a' else True).
Proof.
  intros update a s delta Hr Ho Hs Hp Hf; cbv zeta; simpl.
  unfold animationFrame; rewrite Hs.
  rewrite useFrame_advance by assumption; cbv zeta; simpl.
  destruct (forallb FoodItem.consumed _); unfold render, canvasVisible;
    simpl; rewrite ?Hr, ?Ho; simpl; auto.
Qed.

Lemma food_depletion_ends_race_witness :
  let a := run eatAll initial [ClickStart; RunEffect zeros] in
  let a' := dispatch eatAll a (AnimationFrame (1 / 60)) in
  isGameOver a' = true /\ isSimulationRunning a' = false /\
  timeLeft a' = 60%Z.
Proof.
  destruct (food_depletion_ends_race eatAll
              (run eatAll initial [ClickStart; RunEffect zeros])
              (useEffect 4 100 MAP_SIZE zeros mounted) (1 / 60)
              eq_refl eq_refl eq_refl
              ltac:(discriminate) ltac:(discriminate))
    as [H1 [H2 [H3 _]]].
  exact (conj H1 (conj H2 H3)).
Defined.

(** ** Starting the first race *)

(** X9: from any page that still shows the parameters bar, Start followed by
    the effect builds a new world for the counts of the page: that many
    players and food items, a score overlay of that many zeros, the full
    60 seconds on the clock, the race running and not over. *)
Theorem start_builds_fresh_world :
  forall (update : Update) (es : list Event) (rnd : nat -> R),
    let a := run update initial es in
    barVisible a = true ->
    let a' := run update a [ClickStart; RunEffect rnd] in
    simulation a'
    = Some (useEffect (playerCount a) (foodAmount a) MAP_SIZE rnd mounted) /\
    length (playersOf a') = Z.to_nat (playerCount a) /\
    length (foodItemsOf a') = Z.to_nat (foodAmount a) /\
    scores a' = repeat 0%nat (Z.to_nat (playerCount a)) /\
    timeLeft a' = 60%Z /\
    isSimulationRunning a' = true /\ isGameOver a' = false.
Proof.
  intros update es rnd a Hb.
  assert (simulation a = None) as Hnone.
  { pose proof (run_element update es initial eq_refl) as Hinv.
    fold a in Hinv; unfold elementInvariant in Hinv.
    destruct (simulation a); [| reflexivity].
    destruct Hinv as [Hc _].
    rewrite barVisible_canvasVisible, Hc in Hb; discriminate. }
  clearbody a; cbv zeta; unfold run; simpl; rewrite Hb.
  unfold render, canvasVisible; simpl; rewrite Hnone.
  unfold runEffect; simpl.
  unfold playersOf, foodItemsOf; simpl.
  rewrite newPlayers_length, newFoodItems_length.
  repeat split.
Qed.

Lemma start_builds_fresh_world_witness :
  let a := run eatAll initial [ChangePlayerCount (Int 3)] in
  let a' := run eatAll a [ClickStart; RunEffect zeros] in
  length (playersOf a') = 3%nat /\ scores a' = [0; 0; 0]%nat.
Proof.
  destruct (start_builds_fresh_world eatAll [ChangePlayerCount (Int 3)]
              zeros eq_refl) as [_ [H1 [_ [H2 _]]]].
  exact (conj H1 H2).
Defined.

(** ** More on the spawn rule *)

Lemma playerColors_NoDup : NoDup playerColors.
Proof.
  unfold playerColors.
  repeat (constructor; [simpl; intuition discriminate |]).
  constructor.
Qed.

Lemma spawn_colors (playerCount : Z) (m : R) :
  (Z.to_nat playerCount <= 8)%nat ->
  map Player.color (newPlayers playerCount m)
  = firstn (Z.to_nat playerCount) playerColors.
Proof.
  unfold newPlayers; rewrite map_map.
  generalize (Z.to_nat playerCount) as n; intros n Hn.
  do 9 (destruct n as [| n]; [reflexivity |]); lia.
Qed.

(** X10: in a new world the players carry the ids 0, 1, 2, ... in order, and
    with at most eight players no two of them share a color.  Beyond eight
    the colors repeat: player [i + 8] has the color of player [i]. *)
Theorem players_have_distinct_ids_and_colors :
  forall (playerCount : Z) (mapSize : R),
    (playerCount <= 8)%Z ->
    map Player.id (newPlayers playerCount mapSize)
    = seq 0 (Z.to_nat playerCount) /\
    NoDup (map Player.id (newPlayers playerCount mapSize)) /\
    NoDup (map Player.color (newPlayers playerCount mapSize)) /\
    (forall pc i,
        Player.color (spawnPlayer pc mapSize (i + 8))
        = Player.color (spawnPlayer pc mapSize i)).
Proof.
  intros playerCount mapSize Hpc.
  assert (map Player.id (newPlayers playerCount mapSize)
          = seq 0 (Z.to_nat playerCount)) as Hid.
  { unfold newPlayers; rewrite map_map; simpl; apply map_id. }
  split; [exact Hid |]; split; [rewrite Hid; apply seq_NoDup |]; split.
  - rewrite spawn_colors by lia.
    apply (NoDup_app_remove_r _ (skipn (Z.to_nat playerCount) playerColors)).
    rewrite firstn_skipn; apply playerColors_NoDup.
  - intros pc i; unfold spawnPlayer; cbn [Player.color].
    f_equal; change (length playerColors) with 8%nat.
    replace (i + 8)%nat with (i + 1 * 8)%nat by lia.
    apply Nat.Div0.mod_add.
Qed.

Lemma players_have_distinct_ids_and_colors_witness :
  NoDup (map Player.color (newPlayers 8 MAP_SIZE)).
Proof.
  apply (players_have_distinct_ids_and_colors 8 MAP_SIZE); lia.
Defined.

(** X11: with an even number of players the circle is symmetric about the
    centre: player [i + m] of [2 * m] spawns opposite player [i], at the
    same height. *)
Theorem opposite_players_mirror :
  forall (m i : nat) (mapSize : R),
    (0 < m)%nat ->
    let pc := (2 * Z.of_nat m)%Z in
    let p := Player.position (spawnPlayer pc mapSize i) in
    let q := Player.position (spawnPlayer pc mapSize (i + m)) in
    Vector3.x q = - Vector3.x p /\ Vector3.z q = - Vector3.z p /\
    Vector3.y q = Vector3.y p.
Proof.
  intros m i mapSize Hm; cbv zeta; unfold spawnPlayer.
  cbn [Player.position Vector3.x Vector3.y Vector3.z].
  assert (0 < INR m) as Hpos by (apply lt_0_INR; exact Hm).
  assert (INR (i + m) / IZR (2 * Z.of_nat m) * PI * 2
          = INR i / IZR (2 * Z.of_nat m) * PI * 2 + PI) as ->.
  { rewrite plus_INR, mult_IZR, <- INR_IZR_INZ; field; lra. }
  rewrite neg_cos, neg_sin; repeat split; ring.
Qed.

Lemma opposite_players_mirror_witness :
  Vector3.x (Player.position (spawnPlayer 4 MAP_SIZE 3))
  = - Vector3.x (Player.position (spawnPlayer 4 MAP_SIZE 1)).
Proof.
  exact (proj1 (opposite_players_mirror 2 1 MAP_SIZE ltac:(lia))).
Defined.

(** ** More on the boundary clamp *)

(** X12: the clamp of the game loop touches the x and z of a player's position
    and nothing else; it leaves a player within the arena as it is, and
    clamping twice is the same as clamping once (for a map size that is not
    negative). *)
Theorem clamp_is_a_projection :
  forall (mapSize : R) (p : Player.t),
    0 <= mapSize ->
    let c := clampPlayer mapSize p in
    Player.id c = Player.id p /\ Player.score c = Player.score p /\
    Player.quaternion c = Player.quaternion p /\
    Player.velocity c = Player.velocity p /\
    Vector3.y (Player.position c) = Vector3.y (Player.position p) /\
    (inArena mapSize p -> c = p) /\
    clampPlayer mapSize c = c.
Proof.
  intros mapSize p Hm; cbv zeta.
  repeat split; try reflexivity.
  - apply clampPlayer_id.
  - apply clampPlayer_id, clampPlayer_inArena, Hm.
Qed.

Lemma clamp_is_a_projection_witness :
  clampPlayer MAP_SIZE (clampPlayer MAP_SIZE (playerAt 0 9 (-20) 0))
  = clampPlayer MAP_SIZE (playerAt 0 9 (-20) 0).
Proof.
  apply (clamp_is_a_projection MAP_SIZE (playerAt 0 9 (-20) 0)).
  unfold MAP_SIZE; lra.
Defined.

(** ** The referee *)

(** The sum over [keyMap]: keys held to the right less keys held to the
    left, nothing vertical, keys held down less keys held up. *)
Lemma moveOf_held (keys : Keys) :
  moveOf keys
  = ((held keys "ArrowRight" "KeyD" - held keys "ArrowLeft" "KeyA")%Z,
     0%Z,
     (held keys "ArrowDown" "KeyS" - held keys "ArrowUp" "KeyW")%Z).
Proof.
  unfold moveOf, keyMap, held; cbn [fold_left].
  destruct (keys "ArrowUp"%string), (keys "ArrowDown"%string),
    (keys "ArrowLeft"%string), (keys "ArrowRight"%string),
    (keys "KeyW"%string), (keys "KeyS"%string),
    (keys "KeyA"%string), (keys "KeyD"%string); reflexivity.
Qed.

Lemma axis_length (nx nz : Z) :
  (nx <> 0 \/ nz <> 0)%Z ->
  let l := Vector3Ops.length (Vector3.mk (IZR nx) 0 (IZR nz)) in
  0 < l /\ l * l = IZR nx * IZR nx + IZR nz * IZR nz.
Proof.
  intros H; cbv zeta; unfold Vector3Ops.length; simpl.
  replace (IZR nx * IZR nx + 0 * 0 + IZR nz * IZR nz)
    with (IZR nx * IZR nx + IZR nz * IZR nz) by ring.
  assert (0 < IZR nx * IZR nx + IZR nz * IZR nz) as Hpos.
  { destruct H as [H | H]; apply not_0_IZR in H; nra. }
  split; [now apply sqrt_lt_R0 | apply sqrt_sqrt; lra].
Qed.

(** What a frame does to a referee at [pos], by the net keys held. *)
Lemma refereeFrame_step (keys : Keys) (pos : Vector3.t) :
  let nx := (held keys "ArrowRight" "KeyD" - held keys "ArrowLeft" "KeyA")%Z in
  let nz := (held keys "ArrowDown" "KeyS" - held keys "ArrowUp" "KeyW")%Z in
  (nx = 0%Z /\ nz = 0%Z /\ refereeFrame keys (Some pos) = Some pos) \/
  ((nx <> 0 \/ nz <> 0)%Z /\
   exists l, 0 < l /\ l * l = IZR nx * IZR nx + IZR nz * IZR nz /\
     refereeFrame keys (Some pos)
     = Some (Vector3.mk (Vector3.x pos + IZR nx * (1 / l) * moveSpeed)
                        (Vector3.y pos)
                        (Vector3.z pos + IZR nz * (1 / l) * moveSpeed))).
Proof.
  cbv zeta; unfold refereeFrame; rewrite moveOf_held.
  set (nx := (held keys "ArrowRight" "KeyD" - held keys "ArrowLeft" "KeyA")%Z).
  set (nz := (held keys "ArrowDown" "KeyS" - held keys "ArrowUp" "KeyW")%Z).
  destruct (Z.eqb_spec nx 0) as [Ex | Ex]; destruct (Z.eqb_spec nz 0) as [Ez | Ez];
    cbn [negb orb Z.eqb].
  1: { left; auto. }
  all: right; (split; [auto |]).
  all: destruct (axis_length nx nz) as [Hl Hll]; [auto |].
  all: exists (Vector3Ops.length (Vector3.mk (IZR nx) 0 (IZR nz))).
  all: split; [exact Hl |]; split; [exact Hll |].
  all: unfold Vector3Ops.normalize.
  all: destruct (Req_dec_T _ 0) as [E0 | _]; [rewrite E0 in Hl; lra |].
  all: unfold Vector3Ops.add, Vector3Ops.multiplyScalar; simpl.
  all: do 2 f_equal; ring.
Qed.

(** X13: a frame never changes the referee's height, and whenever it moves the
    referee at all it moves it by exactly [moveSpeed] in the horizontal
    plane, however many keys are held. *)
Theorem referee_steps_by_moveSpeed :
  forall (keys : Keys) (pos : Vector3.t),
    exists pos',
      refereeFrame keys (Some pos) = Some pos' /\
      Vector3.y pos' = Vector3.y pos /\
      (pos' = pos \/
       (Vector3.x pos' - Vector3.x pos) * (Vector3.x pos' - Vector3.x pos)
       + (Vector3.z pos' - Vector3.z pos) * (Vector3.z pos' - Vector3.z pos)
       = moveSpeed * moveSpeed).
Proof.
  intros keys pos.
  destruct (refereeFrame_step keys pos)
    as [[_ [_ H]] | [_ [l [Hl [Hll H]]]]].
  - exists pos; auto.
  - eexists; split; [exact H |]; split; [reflexivity |].
    right; simpl.
    set (nx := IZR (held keys "ArrowRight" "KeyD"
                     - held keys "ArrowLeft" "KeyA")) in *.
    set (nz := IZR (held keys "ArrowDown" "KeyS"
                     - held keys "ArrowUp" "KeyW")) in *.
    replace ((Vector3.x pos + nx * (1 / l) * moveSpeed - Vector3.x pos)
             * (Vector3.x pos + nx * (1 / l) * moveSpeed - Vector3.x pos)
             + (Vector3.z pos + nz * (1 / l) * moveSpeed - Vector3.z pos)
               * (Vector3.z pos + nz * (1 / l) * moveSpeed - Vector3.z pos))
      with ((nx * nx + nz * nz) / (l * l) * (moveSpeed * moveSpeed))
      by (field; lra).
    rewrite <- Hll; field; nra.
Qed.

(** X14: the referee stays where it is exactly when the keys held cancel: as
    many of ArrowRight / KeyD as of ArrowLeft / KeyA, and as many of
    ArrowDown / KeyS as of ArrowUp / KeyW.  Keys outside [keyMap] never
    matter. *)
Theorem referee_rests_iff_keys_cancel :
  forall (keys : Keys) (pos : Vector3.t),
    refereeFrame keys (Some pos) = Some pos <->
    (held keys "ArrowRight" "KeyD" = held keys "ArrowLeft" "KeyA" /\
     held keys "ArrowDown" "KeyS" = held keys "ArrowUp" "KeyW").
Proof.
  intros keys pos.
  destruct (refereeFrame_step keys pos)
    as [[Hx [Hz H]] | [Hne [l [Hl [Hll H]]]]].
  - split; [intros _; lia | intros _; exact H].
  - split; [| intros [Hx Hz]; lia].
    rewrite H; intros E; exfalso.
    injection E as E.
    pose proof (f_equal Vector3.x E) as Ex.
    pose proof (f_equal Vector3.z E) as Ez.
    cbn [Vector3.x Vector3.z] in Ex, Ez.
    set (nx := IZR (held keys "ArrowRight" "KeyD"
                     - held keys "ArrowLeft" "KeyA")) in *.
    set (nz := IZR (held keys "ArrowDown" "KeyS"
                     - held keys "ArrowUp" "KeyW")) in *.
    assert (nx * (1 / l) * moveSpeed = 0) as Ex' by lra.
    assert (nz * (1 / l) * moveSpeed = 0) as Ez' by lra.
    assert (0 < 1 / l) as Hinv by (apply Rdiv_lt_0_compat; lra).
    unfold moveSpeed in *.
    assert (nx = 0) by nra.
    assert (nz = 0) by nra.
    subst nx nz.
    destruct Hne as [Hne | Hne]; apply Hne; now apply eq_IZR.
Qed.

Lemma refereeFrame_unit (keys : Keys) (pos : Vector3.t) (nx nz : Z) :
  (held keys "ArrowRight" "KeyD" - held keys "ArrowLeft" "KeyA")%Z = nx ->
  (held keys "ArrowDown" "KeyS" - held keys "ArrowUp" "KeyW")%Z = nz ->
  (nx * nx + nz * nz = 1)%Z ->
  refereeFrame keys (Some pos)
  = Some (Vector3.mk (Vector3.x pos + moveSpeed * IZR nx)
                     (Vector3.y pos)
                     (Vector3.z pos + moveSpeed * IZR nz)).
Proof.
  intros Hx Hz Hunit.
  destruct (refereeFrame_step keys pos)
    as [[Ex [Ez _]] | [_ [l [Hl [Hll H]]]]].
  - rewrite Hx in Ex; rewrite Hz in Ez; lia.
  - rewrite Hx, Hz in *.
    assert (IZR nx * IZR nx + IZR nz * IZR nz = 1) as H1
      by (rewrite <- !mult_IZR, <- plus_IZR, Hunit; reflexivity).
    assert (l = 1) as -> by nra.
    rewrite H; do 2 f_equal; lra.
Qed.

Lemma released_keys_rest (code : string) (pos : Vector3.t) :
  refereeFrame (keyup code (keydown code noKeys)) (Some pos) = Some pos.
Proof.
  destruct (refereeFrame_step (keyup code (keydown code noKeys)) pos)
    as [[_ [_ H]] | [Hne _]]; [exact H | exfalso].
  unfold held, keyup, keydown, noKeys in Hne.
  repeat match type of Hne with
         | context [String.eqb ?a code] => destruct (String.eqb a code)
         end; simpl in Hne; lia.
Qed.

Lemma held_key_step (code : string) (dx dy dz : Z) (pos : Vector3.t) :
  In (code, (dx, dy, dz)) keyMap ->
  refereeFrame (keydown code noKeys) (Some pos)
  = Some (Vector3.mk (Vector3.x pos + moveSpeed * IZR dx)
                     (Vector3.y pos)
                     (Vector3.z pos + moveSpeed * IZR dz)).
Proof.
  unfold keyMap; intros H.
  repeat (destruct H as [H | H];
          [injection H as <- <- <- <-;
           apply refereeFrame_unit; reflexivity |]).
  destruct H.
Qed.

(** X15: from rest, holding one key of [keyMap] for [n] frames carries the
    referee [n] times [moveSpeed] along the direction of that key, at the
    same height; once the key is released the referee rests again. *)
Theorem holding_a_key_moves_along_its_axis :
  forall (code : string) (dx dy dz : Z) (n : nat) (pos : Vector3.t),
    In (code, (dx, dy, dz)) keyMap ->
    Nat.iter n (refereeFrame (keydown code noKeys)) (Some pos)
    = Some (Vector3.mk (Vector3.x pos + INR n * moveSpeed * IZR dx)
                       (Vector3.y pos)
                       (Vector3.z pos + INR n * moveSpeed * IZR dz)) /\
    forall p,
      refereeFrame (keyup code (keydown code noKeys)) (Some p) = Some p.
Proof.
  intros code dx dy dz n pos Hin.
  split; [| intros p; apply released_keys_rest].
  induction n as [| n IH].
  - simpl; destruct pos as [px py pz]; simpl; do 2 f_equal; lra.
  - rewrite Nat.iter_succ, IH.
    rewrite (held_key_step code dx dy dz _ Hin).
    rewrite S_INR; cbn [Vector3.x Vector3.y Vector3.z].
    do 2 f_equal; lra.
Qed.

Lemma holding_a_key_moves_along_its_axis_witness :
  Nat.iter 4 (refereeFrame (keydown "KeyW" noKeys))
    (Some (Vector3.mk 0 1 0))
  = Some (Vector3.mk (0 + INR 4 * moveSpeed * IZR 0) 1
                     (0 + INR 4 * moveSpeed * IZR (-1))).
Proof.
  apply (holding_a_key_moves_along_its_axis "KeyW" 0 0 (-1) 4
           (Vector3.mk 0 1 0)).
  unfold keyMap; simpl; auto 10.
Defined.

(** ** The clock text *)

Lemma two_digits_check :
  forallb
    (fun n =>
       match padStart (String_of_number (Z.of_nat n)) 2 "0" with
       | String a (String b EmptyString) =>
           match digitValue a, digitValue b with
           | Some x, Some y =>
               (x =? Z.of_nat n / 10)%Z && (y =? Z.of_nat n mod 10)%Z
           | _, _ => false
           end
       | _ => false
       end)
    (seq 0 100) = true.
Proof. vm_compute; reflexivity. Qed.

Lemma two_digits (m : Z) :
  (0 <= m < 100)%Z ->
  exists a b,
    padStart (String_of_number m) 2 "0" = String a (String b EmptyString) /\
    digitValue a = Some (m / 10)%Z /\ digitValue b = Some (m mod 10)%Z.
Proof.
  intros Hm.
  pose proof two_digits_check as H; rewrite forallb_forall in H.
  specialize (H (Z.to_nat m)).
  rewrite Z2Nat.id in H by lia.
  assert (In (Z.to_nat m) (seq 0 100)) as Hin by (apply in_seq; lia).
  apply H in Hin; clear H.
  destruct (padStart (String_of_number m) 2 "0") as [| a [| b [| ? ?]]];
    try discriminate.
  destruct (digitValue a) as [x |] eqn:Ea; [| discriminate].
  destruct (digitValue b) as [y |] eqn:Eb; [| discriminate].
  apply andb_prop in Hin as [Hx Hy].
  apply Z.eqb_eq in Hx, Hy; subst.
  exists a, b; auto.
Qed.

Lemma clock_in_range (t : Z) :
  (0 <= t < 6000)%Z ->
  String.length (clockText t) = 5%nat /\ readClock (clockText t) = Some t.
Proof.
  intros Ht; unfold clockText.
  rewrite Z.rem_mod_nonneg by lia.
  destruct (two_digits (t / 60)) as [a [b [Em [Ha Hb]]]];
    [split; [apply Z.div_pos; lia | apply Z.div_lt_upper_bound; lia] |].
  pose proof (Z.mod_pos_bound t 60 ltac:(lia)) as Hs.
  destruct (two_digits (t mod 60)) as [c [d [Es [Hc Hd]]]]; [lia |].
  rewrite Em, Es; split; [reflexivity |].
  cbn [append readClock]; rewrite Ha, Hb, Hc, Hd.
  pose proof (Z.div_mod (t mod 60) 10 ltac:(lia)) as H1.
  pose proof (Z.div_mod (t / 60) 10 ltac:(lia)) as H2.
  pose proof (Z.div_mod t 60 ltac:(lia)) as H3.
  change (Ascii.eqb ":" ":") with true; cbn [andb].
  destruct (Z.ltb_spec (10 * (t mod 60 / 10) + t mod 60 mod 10) 60);
    [f_equal; lia | lia].
Qed.

(** X16: the clock of the scoreboard always reads MM:SS: on every page that can
    arise the text has five characters and reads back as the time left.
    The format holds for any time from 0 up to 99:59 and breaks outside:
    6000 seconds give 100:00, and a negative time gives signs. *)
Theorem clock_shows_time_left :
  (forall (update : Update) (es : list Event),
      let t := timeLeft (run update initial es) in
      String.length (clockText t) = 5%nat /\
      readClock (clockText t) = Some t) /\
  (forall t, (0 <= t < 6000)%Z ->
      String.length (clockText t) = 5%nat /\
      readClock (clockText t) = Some t) /\
  clockText 60 = "01:00"%string /\
  clockText 6000 = "100:00"%string /\
  clockText (-1) = "-1:-1"%string.
Proof.
  split; [| split; [apply clock_in_range | repeat split; reflexivity]].
  intros update es; cbv zeta; apply clock_in_range.
  destruct (run_timerInvariant update es initial initial_timerInvariant)
    as [_ [Ht _]].
  unfold gameDuration in Ht; lia.
Qed.

(** ** The food on the canvas *)

Lemma FoodItemMesh_geometries (item : FoodItem.t) (m : Mesh) :
  FoodItemMesh item = Some m ->
  (length (mesh_geometries m) <= 1)%nat /\
  (FoodItem.type item <> None -> length (mesh_geometries m) = 1%nat) /\
  mesh_position m = FoodItem.position item /\
  mesh_color m = FoodItem.color item.
Proof.
  unfold FoodItemMesh, hasType.
  destruct (FoodItem.consumed item); [discriminate |].
  intros H; injection H as <-; simpl.
  destruct (FoodItem.type item) as [[| |] |]; simpl;
    repeat split; auto; congruence.
Qed.

Lemma drawnFood_ids (fs : list FoodItem.t) (d : option (Z * Z * R))
  (ps : list Player.t) :
  map fst (drawnFood (mkSimulation ps fs d))
  = map FoodItem.id
      (filter (fun f => negb (FoodItem.consumed f)) fs).
Proof.
  unfold drawnFood; simpl.
  induction fs as [| f fs IH]; [reflexivity |].
  cbn [flat_map filter]; rewrite map_app, IH.
  unfold FoodItemMesh.
  destruct (FoodItem.consumed f); reflexivity.
Qed.

(** X17: of the food items of a world the canvas draws those not consumed, one
    mesh each, in order, keyed by the item's id and placed at the item's
    position; a consumed item is never drawn.  A mesh has one geometry,
    or none when the item's type is undefined. *)
Theorem canvas_draws_unconsumed_food :
  forall (s : Simulation),
    map fst (drawnFood s)
    = map FoodItem.id
        (filter (fun f => negb (FoodItem.consumed f)) (foodItems s)) /\
    Forall
      (fun km =>
         exists item,
           In item (foodItems s) /\ FoodItem.consumed item = false /\
           FoodItem.id item = fst km /\
           mesh_position (snd km) = FoodItem.position item /\
           mesh_color (snd km) = FoodItem.color item /\
           length (mesh_geometries (snd km))
           = match FoodItem.type item with Some _ => 1 | None => 0 end%nat)
      (drawnFood s).
Proof.
  intros [ps fs d]; split; [apply drawnFood_ids |].
  unfold drawnFood; simpl.
  apply Forall_forall; intros [k m] Hin.
  apply in_flat_map in Hin as [item [Hitem Hkm]].
  destruct (FoodItem.consumed item) eqn:Ec; simpl in Hkm; [contradiction |].
  destruct (FoodItemMesh item) as [m' |] eqn:Em; [| contradiction].
  destruct Hkm as [Hkm | []]; injection Hkm as <- <-.
  exists item; simpl.
  destruct (FoodItemMesh_geometries item m' Em) as [_ [_ [Hp Hc]]].
  repeat split; try assumption.
  unfold FoodItemMesh, hasType in Em; rewrite Ec in Em.
  injection Em as <-; simpl.
  destruct (FoodItem.type item) as [[| |] |]; reflexivity.
Qed.

Lemma spawnFood_mesh (mapSize : R) (rnd : nat -> R) (i : nat) :
  (forall n, 0 <= rnd n < 1) ->
  exists m c,
    FoodItemMesh (spawnFood mapSize rnd i) = Some m /\
    length (mesh_geometries m) = 1%nat /\
    mesh_color m = Some c /\ In c foodColors.
Proof.
  intros Hrnd.
  destruct (pick_in foodTypes (rnd (4 * i + 2)%nat)) as [t [Ht _]];
    [discriminate | apply Hrnd |].
  destruct (pick_in foodColors (rnd (4 * i + 3)%nat)) as [c [Hc Hin]];
    [discriminate | apply Hrnd |].
  destruct (FoodItemMesh (spawnFood mapSize rnd i)) as [m |] eqn:Em;
    [| discriminate Em].
  destruct (FoodItemMesh_geometries _ m Em) as [_ [H1 [_ Hcol]]].
  exists m, c; repeat split; try assumption.
  - apply H1; cbn [spawnFood FoodItem.type]; rewrite Ht; discriminate.
  - rewrite Hcol; exact Hc.
Qed.

(** X18: in a new world, with [Math.random] drawing from [[0, 1)], every food
    item is on the canvas: as many meshes as food items, keyed 0, 1, 2, ...
    without repeats, each with exactly one geometry and a color out of the
    six food colors. *)
Theorem new_food_is_all_drawn :
  forall (playerCount foodAmount : Z) (mapSize : R) (rnd : nat -> R),
    (forall n, 0 <= rnd n < 1) ->
    let s := useEffect playerCount foodAmount mapSize rnd mounted in
    map fst (drawnFood s) = seq 0 (Z.to_nat foodAmount) /\
    Forall
      (fun km =>
         length (mesh_geometries (snd km)) = 1%nat /\
         exists c, mesh_color (snd km) = Some c /\ In c foodColors)
      (drawnFood s).
Proof.
  intros playerCount foodAmount mapSize rnd Hrnd; cbv zeta.
  unfold useEffect, drawnFood, newFoodItems.
  cbn [foodItems].
  generalize (seq 0 (Z.to_nat foodAmount)) as l.
  induction l as [| i l [IH1 IH2]]; [split; constructor |].
  cbn [map flat_map].
  destruct (spawnFood_mesh mapSize rnd i Hrnd) as [m [c [Hm [Hg [Hc Hin]]]]].
  rewrite Hm.
  change (negb (FoodItem.consumed (spawnFood mapSize rnd i))) with true.
  cbn iota; split.
  - cbn [app map fst]; f_equal; exact IH1.
  - cbn [app]; constructor; [| exact IH2].
    cbn [snd]; split; [exact Hg | now exists c].
Qed.

Lemma new_food_is_all_drawn_witness :
  map fst (drawnFood (useEffect 4 100 MAP_SIZE zeros mounted))
  = seq 0 100.
Proof.
  apply (new_food_is_all_drawn 4 100 MAP_SIZE zeros).
  intros n; unfold zeros; lra.
Defined.

(** ** A race and its clock *)

Section Clock.
Variable update : Update.

Lemma dispatch_race (a : RaceSimulation) (e : Event) :
  timerInvariant a -> canvasVisible a = true ->
  isClickPlayAgain e = false ->
  let a' := dispatch update a e in
  isGameOver a' = true \/
  (isGameOver a = false /\ isSimulationRunning a' = true /\
   timeLeft a'
   = (timeLeft a - match e with TimerTick => 1 | _ => 0 end)%Z).
Proof.
  intros [Hx [Ht Hr]] Hc He; cbv zeta.
  assert (barVisible a = false) as Hb
    by (now rewrite barVisible_canvasVisible, Hc).
  unfold canvasVisible in Hc.
  destruct (isGameOver a) eqn:Eo.
  - left. rewrite andb_true_r in Hx.
    destruct e; simpl; rewrite ?Hb, ?Eo, ?Hx; simpl;
      try reflexivity; try assumption; try discriminate.
    + unfold runEffect; destruct (simulation a); [| assumption].
      destruct (depsChanged _ _ _ _); assumption.
    + destruct (render_fields (animationFrame update delta a))
        as [_ [-> _]].
      destruct (animationFrame_fields update delta a)
        as [_ [[_ ->] | [_ ->]]]; [assumption | reflexivity].
  - rewrite orb_false_r in Hc.
    destruct e; simpl; rewrite ?Hb, ?Eo, ?Hc; simpl;
      try (right; repeat split; try assumption; lia); try discriminate.
    + destruct (render_fields (timerTick a)) as [-> [-> [-> _]]].
      unfold timerTick; destruct (timeLeft a <=? 1)%Z; simpl;
        [now left | right; auto].
    + right; unfold runEffect; destruct (simulation a);
        [destruct (depsChanged _ _ _ _) |]; simpl;
        repeat split; try assumption; lia.
    + destruct (render_fields (animationFrame update delta a))
        as [-> [-> [-> _]]].
      destruct (animationFrame_fields update delta a)
        as [-> [[-> ->] | [-> ->]]]; [right | now left].
      repeat split; try assumption; lia.
Qed.

Lemma run_race (es : list Event) :
  forall a,
    timerInvariant a -> canvasVisible a = true ->
    forallb (fun e => negb (isClickPlayAgain e)) es = true ->
    isGameOver a = true \/ (timeLeft a <= countTicks es)%Z ->
    isGameOver (run update a es) = true.
Proof.
  induction es as [| e es IH]; intros a Hinv Hc Hes Hgo.
  - destruct Hgo as [Ho | Hlt]; [exact Ho |].
    destruct Hinv as [Hx [Ht Hr]].
    unfold countTicks in Hlt; simpl in Hlt.
    unfold canvasVisible in Hc.
    destruct (isSimulationRunning a) eqn:Er; [specialize (Hr eq_refl); lia |].
    exact Hc.
  - simpl in Hes; apply andb_prop in Hes as [He Hes].
    apply negb_true_iff in He.
    change (run update a (e :: es)) with (run update (dispatch update a e) es).
    pose proof (dispatch_race a e Hinv Hc He) as Hstep; cbv zeta in Hstep.
    apply IH; [now apply dispatch_timerInvariant | | exact Hes |].
    + now apply dispatch_started.
    + destruct Hstep as [Ho | [Ho [Hr' Ht']]]; [now left |].
      destruct Hgo as [Ho' | Hlt]; [congruence |].
      right; rewrite Ht'.
      unfold countTicks in *; destruct e; simpl in *; lia.
Qed.
End Clock.

(** X19: a race never outlasts its clock: on a page where a race has been
    started, any sequence of events without Play Again that holds at least
    as many firings of the timer as there are seconds left ends with the
    race over, whatever frames and other events come in between. *)
Theorem race_never_outlasts_its_clock :
  forall (update : Update) (es0 es : list Event),
    let a := run update initial es0 in
    canvasVisible a = true ->
    forallb (fun e => negb (isClickPlayAgain e)) es = true ->
    (timeLeft a <= countTicks es)%Z ->
    isGameOver (run update a es) = true.
Proof.
  intros update es0 es a Hc Hes Hlt.
  apply run_race; try assumption; [| now right].
  apply run_timerInvariant, initial_timerInvariant.
Qed.

Lemma race_never_outlasts_its_clock_witness :
  isGameOver
    (run sampleUpdate (run sampleUpdate initial [ClickStart; RunEffect zeros])
       (AnimationFrame (1 / 60) :: repeat TimerTick 60)) = true.
Proof.
  apply (race_never_outlasts_its_clock sampleUpdate
           [ClickStart; RunEffect zeros]
           (AnimationFrame (1 / 60) :: repeat TimerTick 60));
    reflexivity || (vm_compute; discriminate).
Defined.
